(** * The TypeScript Deno plugin: enablement resolution and interception

    A shallow embedding of [typescript-deno-plugin/src/index.ts].  The
    plugin sits between the TypeScript language service and its host: every
    wrapped operation first resolves whether Deno is enabled for the file (or
    for the project) and then either answers with a neutral value or calls the
    original language service.

    Layout:
    - [Js]       : the few string primitives of JavaScript the code relies on;
    - [Regex]    : the regular expressions of [PARENT_RELATIVE_REGEX];
    - [NodePath] : Node's [path] module ([path.posix] and [path.win32]), which
                   the plugin imports; it is platform code and is transcribed
                   from Node's [lib/path.js];
    - [Plugin]   : the plugin itself. *)

From Stdlib Require Import ZArith Ascii String List Bool Lia.
From stdpp Require Import base option list gmap strings.

Local Open Scope string_scope.
Local Open Scope Z_scope.

(** ** JavaScript string primitives *)

Module Js.

(** [s.length] *)
Definition length (s : string) : Z := Z.of_nat (String.length s).

(** [s.charCodeAt(i)]; [None] is JavaScript's [NaN] (index out of range). *)
Definition charCodeAt (s : string) (i : Z) : option ascii :=
  if i <? 0 then None else String.get (Z.to_nat i) s.

(** [s.charCodeAt(i) === c] *)
Definition charIs (s : string) (i : Z) (c : ascii) : bool :=
  match charCodeAt s i with
  | Some d => Ascii.eqb d c
  | None => false
  end.

(** [p(s.charCodeAt(i))] for a predicate on character codes; every
    predicate used below is false on [NaN]. *)
Definition charSat (p : ascii -> bool) (s : string) (i : Z) : bool :=
  match charCodeAt s i with
  | Some d => p d
  | None => false
  end.

(** [s.slice(a, b)] for [0 <= a]; indices past the end are clamped. *)
Definition slice (s : string) (a b : Z) : string :=
  let a' := Z.max 0 a in
  let b' := Z.min (length s) (Z.max 0 b) in
  if b' <=? a' then EmptyString else String.substring (Z.to_nat a') (Z.to_nat (b' - a')) s.

(** [s.slice(a)] *)
Definition sliceFrom (s : string) (a : Z) : string := slice s a (length s).

(** [s.lastIndexOf(c)] for a one-character string [c]; [-1] when absent. *)
Fixpoint lastIndexOfFrom (s : string) (c : ascii) (i : Z) (found : Z) : Z :=
  match s with
  | EmptyString => found
  | String d s' => lastIndexOfFrom s' c (i + 1) (if Ascii.eqb d c then i else found)
  end.
Definition lastIndexOf (s : string) (c : ascii) : Z := lastIndexOfFrom s c 0 (-1).

(** [s.replace(/c/g, d)] for single characters [c] and [d]. *)
Fixpoint replaceAll (c d : ascii) (s : string) : string :=
  match s with
  | EmptyString => EmptyString
  | String x s' => String (if Ascii.eqb x c then d else x) (replaceAll c d s')
  end.

(** [s.toLowerCase()], on the ASCII letters (the model's strings are byte
    strings). *)
Definition lowerChar (c : ascii) : ascii :=
  let n := nat_of_ascii c in
  if (65 <=? n)%nat && (n <=? 90)%nat then ascii_of_nat (n + 32) else c.
Fixpoint toLowerCase (s : string) : string :=
  match s with
  | EmptyString => EmptyString
  | String x s' => String (lowerChar x) (toLowerCase s')
  end.

(** Does [c] occur in [s]? *)
Fixpoint contains (c : ascii) (s : string) : bool :=
  match s with
  | EmptyString => false
  | String x s' => Ascii.eqb x c || contains c s'
  end.

End Js.

(** ** Regular expressions

    Only what [PARENT_RELATIVE_REGEX] uses: literal characters, a character
    class, the end-of-input assertion [$] (no [m] flag), sequence and
    alternation. *)

Module Regex.

Inductive t : Type :=
| Chr (c : ascii)
| Class (cs : list ascii)
| Eol
| Seq (r1 r2 : t)
| Alt (r1 r2 : t).

(** All the ways [r] matches a prefix of [s]: the list of what is left of
    [s] after each. *)
Fixpoint matchPrefix (r : t) (s : string) : list string :=
  match r with
  | Chr c =>
      match s with
      | String d s' => if Ascii.eqb d c then [s'] else []
      | EmptyString => []
      end
  | Class cs =>
      match s with
      | String d s' => if existsb (Ascii.eqb d) cs then [s'] else []
      | EmptyString => []
      end
  | Eol =>
      match s with
      | EmptyString => [EmptyString]
      | String _ _ => []
      end
  | Seq r1 r2 => flat_map (matchPrefix r2) (matchPrefix r1 s)
  | Alt r1 r2 => matchPrefix r1 s ++ matchPrefix r2 s
  end.

Definition matchesAtStart (r : t) (s : string) : bool :=
  match matchPrefix r s with
  | [] => false
  | _ :: _ => true
  end.

(** [s.match(r) !== null] for an unanchored, non-global [r]: some position
    of [s], the end included, starts a match. *)
Fixpoint test (r : t) (s : string) : bool :=
  matchesAtStart r s ||
  match s with
  | EmptyString => false
  | String _ s' => test r s'
  end.

End Regex.

(** ** Node's [path] module

    The plugin imports [path] and [os] from Node.  [path] is [path.win32]
    when [process.platform] is ["win32"] and [path.posix] otherwise.  The
    definitions follow Node's [lib/path.js] statement by statement; the
    process state they read ([process.cwd()], [process.env]) is a record. *)

Module NodePath.

Record Process : Type := {
  platform : string;          (* [process.platform], [os.platform()] *)
  cwd : string;               (* [process.cwd()] *)
  env : gmap string string    (* [process.env] *)
}.

Definition CHAR_DOT : ascii := ".".
Definition CHAR_COLON : ascii := ":".
Definition CHAR_FORWARD_SLASH : ascii := "/".
Definition CHAR_BACKWARD_SLASH : ascii := "\".

Definition isPathSeparator (c : ascii) : bool :=
  Ascii.eqb c CHAR_FORWARD_SLASH || Ascii.eqb c CHAR_BACKWARD_SLASH.

Definition isPosixPathSeparator (c : ascii) : bool :=
  Ascii.eqb c CHAR_FORWARD_SLASH.

Definition isWindowsDeviceRoot (c : ascii) : bool :=
  let n := nat_of_ascii c in
  ((65 <=? n)%nat && (n <=? 90)%nat) || ((97 <=? n)%nat && (n <=? 122)%nat).

Definition str1 (c : ascii) : string := String c EmptyString.

(** *** [normalizeString]: resolves [.] and [..] segments *)

Record NormState : Type := {
  res : string;
  lastSegmentLength : Z;
  lastSlash : Z;
  dots : Z;
  code : ascii
}.

Section Normalize.
Variable path : string.
Variable allowAboveRoot : bool.
Variable separator : ascii.
Variable isSep : ascii -> bool.

(** the end of the loop body: [lastSlash = i; dots = 0] *)
Definition closeSegment (i : Z) (r : string) (l : Z) (c : ascii) : NormState :=
  {| res := r; lastSegmentLength := l; lastSlash := i; dots := 0; code := c |}.

(** [if (allowAboveRoot) { res += ...; lastSegmentLength = 2 }] *)
Definition aboveRoot (i : Z) (st : NormState) : NormState :=
  if allowAboveRoot
  then closeSegment i
         (if 0 <? Js.length (res st)
          then res st +:+ str1 separator +:+ ".." else "..")
         2 (code st)
  else closeSegment i (res st) (lastSegmentLength st) (code st).

(** One iteration of the loop, after [code] has been read. *)
Definition normalizeBody (i : Z) (st : NormState) : NormState :=
  let r := res st in
  if isSep (code st) then
    if (lastSlash st =? i - 1) || (dots st =? 1) then
      closeSegment i r (lastSegmentLength st) (code st)
    else if dots st =? 2 then
      if (Js.length r <? 2) || negb (lastSegmentLength st =? 2)
         || negb (Js.charIs r (Js.length r - 1) CHAR_DOT)
         || negb (Js.charIs r (Js.length r - 2) CHAR_DOT)
      then
        if 2 <? Js.length r then
          let lastSlashIndex := Js.lastIndexOf r separator in
          if lastSlashIndex =? -1
          then closeSegment i EmptyString 0 (code st)
          else
            let r' := Js.slice r 0 lastSlashIndex in
            closeSegment i r'
              (Js.length r' - 1 - Js.lastIndexOf r' separator) (code st)
        else if negb (Js.length r =? 0) then
          closeSegment i EmptyString 0 (code st)
        else aboveRoot i st
      else aboveRoot i st
    else
      closeSegment i
        (if 0 <? Js.length r
         then r +:+ str1 separator +:+ Js.slice path (lastSlash st + 1) i
         else Js.slice path (lastSlash st + 1) i)
        (i - lastSlash st - 1) (code st)
  else if Ascii.eqb (code st) CHAR_DOT && negb (dots st =? -1) then
    {| res := r; lastSegmentLength := lastSegmentLength st;
       lastSlash := lastSlash st; dots := dots st + 1; code := code st |}
  else
    {| res := r; lastSegmentLength := lastSegmentLength st;
       lastSlash := lastSlash st; dots := -1; code := code st |}.

(** [for (let i = 0; i <= path.length; ++i)]: at most
    [path.length + 1] iterations, which is the fuel given below. *)
Fixpoint normalizeLoop (fuel : nat) (i : Z) (st : NormState) : string :=
  match fuel with
  | O => res st
  | S fuel' =>
      if i <=? Js.length path then
        match Js.charCodeAt path i with
        | Some c =>
            normalizeLoop fuel' (i + 1)
              (normalizeBody i
                 {| res := res st; lastSegmentLength := lastSegmentLength st;
                    lastSlash := lastSlash st; dots := dots st; code := c |})
        | None =>
            if isSep (code st) then res st (* break *)
            else
              normalizeLoop fuel' (i + 1)
                (normalizeBody i
                   {| res := res st; lastSegmentLength := lastSegmentLength st;
                      lastSlash := lastSlash st; dots := dots st;
                      code := CHAR_FORWARD_SLASH |})
        end
      else res st
  end.

Definition normalizeString : string :=
  normalizeLoop (S (String.length path)) 0
    {| res := EmptyString; lastSegmentLength := 0; lastSlash := -1;
       dots := 0; code := Ascii.zero |}.
End Normalize.

(** *** [path.posix] *)

Module posix.

Definition isAbsolute (path : string) : bool :=
  (0 <? Js.length path) && Js.charIs path 0 CHAR_FORWARD_SLASH.

(** The loop of [resolve]: [paths] are the arguments from last to first,
    followed by the working directory (index [-1]). *)
Fixpoint resolveLoop (paths : list string) (resolvedPath : string)
    (resolvedAbsolute : bool) : string * bool :=
  match paths with
  | [] => (resolvedPath, resolvedAbsolute)
  | path :: rest =>
      if resolvedAbsolute then (resolvedPath, resolvedAbsolute)
      else if Js.length path =? 0 then
        resolveLoop rest resolvedPath resolvedAbsolute
      else
        resolveLoop rest (path +:+ "/" +:+ resolvedPath)
          (Js.charIs path 0 CHAR_FORWARD_SLASH)
  end.

Definition resolve (p : Process) (args : list string) : string :=
  let '(resolvedPath, resolvedAbsolute) :=
    resolveLoop (rev args ++ [cwd p]) EmptyString false in
  let resolvedPath :=
    normalizeString resolvedPath (negb resolvedAbsolute)
      CHAR_FORWARD_SLASH isPosixPathSeparator in
  if resolvedAbsolute then "/" +:+ resolvedPath
  else if 0 <? Js.length resolvedPath then resolvedPath else ".".

(** The comparison loop of [relative]: returns the final [i] and
    [lastCommonSep]. *)
Fixpoint commonLoop (sep : ascii) (from to : string) (fromStart toStart : Z)
    (fuel : nat) (i : Z) (length : Z) (lastCommonSep : Z) : Z * Z :=
  match fuel with
  | O => (i, lastCommonSep)
  | S fuel' =>
      if i <? length then
        match Js.charCodeAt from (fromStart + i), Js.charCodeAt to (toStart + i) with
        | Some fromCode, Some toCode =>
            if negb (Ascii.eqb fromCode toCode) then (i, lastCommonSep)
            else commonLoop sep from to fromStart toStart fuel' (i + 1) length
                   (if Ascii.eqb fromCode sep then i else lastCommonSep)
        | _, _ => (i, lastCommonSep)
        end
      else (i, lastCommonSep)
  end.

(** The loop producing one [..] per remaining segment of [from]. *)
Fixpoint upLoop (sep : ascii) (from : string) (fromEnd : Z) (fuel : nat)
    (i : Z) (out : string) : string :=
  match fuel with
  | O => out
  | S fuel' =>
      if i <=? fromEnd then
        upLoop sep from fromEnd fuel' (i + 1)
          (if (i =? fromEnd) || Js.charIs from i sep
           then (if Js.length out =? 0 then ".." else out +:+ str1 sep +:+ "..")
           else out)
      else out
  end.

Definition relative (p : Process) (from to : string) : string :=
  if String.eqb from to then EmptyString else
  let from := resolve p [from] in
  let to := resolve p [to] in
  if String.eqb from to then EmptyString else
  let fromStart := 1 in
  let fromEnd := Js.length from in
  let fromLen := fromEnd - fromStart in
  let toStart := 1 in
  let toLen := Js.length to - toStart in
  let length := if fromLen <? toLen then fromLen else toLen in
  let '(i, lastCommonSep) :=
    commonLoop CHAR_FORWARD_SLASH from to fromStart toStart
      (Z.to_nat length) 0 length (-1) in
  let finish (lastCommonSep : Z) : string :=
    upLoop CHAR_FORWARD_SLASH from fromEnd (S (Z.to_nat fromEnd))
      (fromStart + lastCommonSep + 1) EmptyString
    +:+ Js.sliceFrom to (toStart + lastCommonSep) in
  if i =? length then
    if length <? toLen then
      if Js.charIs to (toStart + i) CHAR_FORWARD_SLASH then
        Js.sliceFrom to (toStart + i + 1)
      else if i =? 0 then Js.sliceFrom to (toStart + i)
      else finish lastCommonSep
    else if length <? fromLen then
      if Js.charIs from (fromStart + i) CHAR_FORWARD_SLASH then finish i
      else if i =? 0 then finish 0
      else finish lastCommonSep
    else finish lastCommonSep
  else finish lastCommonSep.

End posix.

(** *** [path.win32] *)

Module win32.

Definition isAbsolute (path : string) : bool :=
  let len := Js.length path in
  if len =? 0 then false
  else
    Js.charSat isPathSeparator path 0
    || ((2 <? len) && Js.charSat isWindowsDeviceRoot path 0
        && Js.charIs path 1 CHAR_COLON && Js.charSat isPathSeparator path 2).

(** [while (j < len && pred(path.charCodeAt(j))) j++] *)
Fixpoint skipWhile (pred : ascii -> bool) (path : string) (len : Z)
    (fuel : nat) (j : Z) : Z :=
  match fuel with
  | O => j
  | S fuel' =>
      if (j <? len) && Js.charSat pred path j
      then skipWhile pred path len fuel' (j + 1)
      else j
  end.

Definition notSeparator (c : ascii) : bool := negb (isPathSeparator c).

(** The root of one path: [(rootEnd, device, isAbsolute)]. *)
Definition parseRoot (path : string) : Z * string * bool :=
  let len := Js.length path in
  let fuel := String.length path in
  if len =? 1 then
    if Js.charSat isPathSeparator path 0 then (1, EmptyString, true)
    else (0, EmptyString, false)
  else if Js.charSat isPathSeparator path 0 then
    (* possible UNC root *)
    if Js.charSat isPathSeparator path 1 then
      let last := 2 in
      let j := skipWhile notSeparator path len fuel 2 in
      if (j <? len) && negb (j =? last) then
        let firstPart := Js.slice path last j in
        let last := j in
        let j := skipWhile isPathSeparator path len fuel j in
        if (j <? len) && negb (j =? last) then
          let last := j in
          let j := skipWhile notSeparator path len fuel j in
          if (j =? len) || negb (j =? last) then
            (j, "\\" +:+ firstPart +:+ "\" +:+ Js.slice path last j, true)
          else (0, EmptyString, true)
        else (0, EmptyString, true)
      else (0, EmptyString, true)
    else (1, EmptyString, true)
  else if Js.charSat isWindowsDeviceRoot path 0 && Js.charIs path 1 CHAR_COLON then
    if (2 <? len) && Js.charSat isPathSeparator path 2
    then (3, Js.slice path 0 2, true)
    else (2, Js.slice path 0 2, false)
  else (0, EmptyString, false).

Record ResolveState : Type := {
  resolvedDevice : string;
  resolvedTail : string;
  resolvedAbsolute : bool
}.

(** The loop body from [const len = path.length] on; the boolean is
    [true] when the body ends in [break]. *)
Definition resolveBody (path : string) (st : ResolveState) : ResolveState * bool :=
  let '(rootEnd, device, isAbs) := parseRoot path in
  let skip :=
    (0 <? Js.length device) && (0 <? Js.length (resolvedDevice st))
    && negb (String.eqb (Js.toLowerCase device)
                        (Js.toLowerCase (resolvedDevice st))) in
  if skip then (st, false) (* continue *)
  else
    let dev :=
      if (0 <? Js.length device) && negb (0 <? Js.length (resolvedDevice st))
      then device else resolvedDevice st in
    if resolvedAbsolute st then
      ({| resolvedDevice := dev; resolvedTail := resolvedTail st;
          resolvedAbsolute := true |},
       0 <? Js.length dev)
    else
      ({| resolvedDevice := dev;
          resolvedTail := Js.sliceFrom path rootEnd +:+ "\" +:+ resolvedTail st;
          resolvedAbsolute := isAbs |},
       isAbs && (0 <? Js.length dev)).

(** Index [-1] of the loop: the working directory, of the resolved
    drive when there is one. *)
Definition cwdFor (p : Process) (st : ResolveState) : string :=
  if Js.length (resolvedDevice st) =? 0 then cwd p
  else
    let path :=
      match env p !! ("=" +:+ resolvedDevice st) with
      | Some v => if Js.length v =? 0 then cwd p else v
      | None => cwd p
      end in
    if negb (String.eqb (Js.toLowerCase (Js.slice path 0 2))
                        (Js.toLowerCase (resolvedDevice st)))
       && Js.charIs path 2 CHAR_BACKWARD_SLASH
    then resolvedDevice st +:+ "\"
    else path.

(** [for (let i = args.length - 1; i >= -1; i--)], the arguments given
    from last to first. *)
Fixpoint resolveLoop (p : Process) (paths : list string) (st : ResolveState)
    : ResolveState :=
  match paths with
  | [] => fst (resolveBody (cwdFor p st) st)
  | path :: rest =>
      if Js.length path =? 0 then resolveLoop p rest st
      else
        let '(st', stop) := resolveBody path st in
        if stop then st' else resolveLoop p rest st'
  end.

Definition resolve (p : Process) (args : list string) : string :=
  let st :=
    resolveLoop p (rev args)
      {| resolvedDevice := EmptyString; resolvedTail := EmptyString;
         resolvedAbsolute := false |} in
  let tail :=
    normalizeString (resolvedTail st) (negb (resolvedAbsolute st))
      CHAR_BACKWARD_SLASH isPathSeparator in
  if resolvedAbsolute st then resolvedDevice st +:+ "\" +:+ tail
  else
    let r := resolvedDevice st +:+ tail in
    if Js.length r =? 0 then "." else r.

(** Trimming of trailing backslashes:
    [while (end - 1 > start && s.charCodeAt(end - 1) === 92) end--] *)
Fixpoint trimEnd (s : string) (start : Z) (fuel : nat) (e : Z) : Z :=
  match fuel with
  | O => e
  | S fuel' =>
      if (start <? e - 1) && Js.charIs s (e - 1) CHAR_BACKWARD_SLASH
      then trimEnd s start fuel' (e - 1)
      else e
  end.

Definition isBackslash (c : ascii) : bool := Ascii.eqb c CHAR_BACKWARD_SLASH.

Definition relative (p : Process) (from to : string) : string :=
  if String.eqb from to then EmptyString else
  let fromOrig := resolve p [from] in
  let toOrig := resolve p [to] in
  if String.eqb fromOrig toOrig then EmptyString else
  let from := Js.toLowerCase fromOrig in
  let to := Js.toLowerCase toOrig in
  if String.eqb from to then EmptyString else
  let fromStart := skipWhile isBackslash from (Js.length from) (String.length from) 0 in
  let fromEnd := trimEnd from fromStart (String.length from) (Js.length from) in
  let fromLen := fromEnd - fromStart in
  let toStart := skipWhile isBackslash to (Js.length to) (String.length to) 0 in
  let toEnd := trimEnd to toStart (String.length to) (Js.length to) in
  let toLen := toEnd - toStart in
  let length := if fromLen <? toLen then fromLen else toLen in
  let '(i, lastCommonSep) :=
    posix.commonLoop CHAR_BACKWARD_SLASH from to fromStart toStart
      (Z.to_nat length) 0 length (-1) in
  let finish (lastCommonSep : Z) : string :=
    let out :=
      posix.upLoop CHAR_BACKWARD_SLASH from fromEnd (S (Z.to_nat fromEnd))
        (fromStart + lastCommonSep + 1) EmptyString in
    let toStart := toStart + lastCommonSep in
    if 0 <? Js.length out then out +:+ Js.slice toOrig toStart toEnd
    else if Js.charIs toOrig toStart CHAR_BACKWARD_SLASH
    then Js.slice toOrig (toStart + 1) toEnd
    else Js.slice toOrig toStart toEnd in
  let nonNeg (l : Z) : Z := if l =? -1 then 0 else l in
  if negb (i =? length) then
    if lastCommonSep =? -1 then toOrig else finish lastCommonSep
  else if (length <? toLen) && Js.charIs to (toStart + i) CHAR_BACKWARD_SLASH then
    Js.sliceFrom toOrig (toStart + i + 1)
  else if (length <? toLen) && (i =? 2) then
    Js.sliceFrom toOrig (toStart + i)
  else if length <? fromLen then
    if Js.charIs from (fromStart + i) CHAR_BACKWARD_SLASH then finish (nonNeg i)
    else if i =? 2 then finish 3
    else finish (nonNeg lastCommonSep)
  else finish (nonNeg lastCommonSep).

End win32.

End NodePath.

(** ** The plugin *)

Module Plugin.
Import NodePath.

(** *** Settings

    The declarations of [PluginSettings] and [Settings] live in the
    client's [shared_types]; the records below list the fields that
    [index.ts] reads, each optional where the code guards it with [?.] or
    [??].  Settings arrive as JSON. *)

#[local] Unset Elimination Schemes.
Inductive Json : Type :=
| JNull
| JBool (b : bool)
| JNum (n : Z)
| JStr (s : string)
| JArr (items : list Json)
| JObj (fields : list (string * Json)).
#[local] Set Elimination Schemes.

(** [Settings]: a JavaScript object used as a record of named fields. *)
Abbreviation Settings := (gmap string Json).

(** [a ?? b] *)
Definition nullish {A : Type} (a : option A) (b : A) : A :=
  match a with
  | Some x => x
  | None => b
  end.

(** [a?.f]: optional chaining; [None] is [undefined]. *)
Definition optional {A B : Type} (a : option A) (f : A -> option B) : option B :=
  match a with
  | Some x => f x
  | None => None
  end.
Notation "a ?. f" := (optional a f) (at level 50, left associativity).

(** Reading [s.enable], of type [boolean | null]; [None] stands for both
    [null] and [undefined], which [??] does not tell apart. *)
Definition enable (s : Settings) : option bool :=
  match s !! "enable" with
  | Some (JBool b) => Some b
  | _ => None
  end.

Record DocumentSettings : Type := {
  settings : Settings
}.

Module PathFilter.
Record t : Type := {
  workspace : string;
  disabled : list string;
  enabled : option (list string)
}.
End PathFilter.

Record PluginSettings : Type := {
  workspace : option Settings;
  documents : option (gmap string DocumentSettings);
  hasDenoConfig : option bool;
  pathFilters : option (list PathFilter.t)
}.

(** *** The settings store: the two module-level constants *)

Record Store : Type := {
  projectSettings : gmap string PluginSettings;
  defaultSettings : Settings
}.

(** The literal that initialises [defaultSettings]. *)
Definition initialDefaultSettings : Settings :=
  list_to_map [
    ("cache", JNull);
    ("cacheOnSave", JBool false);
    ("certificateStores", JNull);
    ("enable", JNull);
    ("disablePaths", JArr []);
    ("enablePaths", JArr []);
    ("codeLens", JNull);
    ("config", JNull);
    ("documentPreloadLimit", JNull);
    ("maxTsServerMemory", JNull);
    ("importMap", JNull);
    ("inlayHints", JNull);
    ("internalDebug", JBool false);
    ("lint", JBool false);
    ("logFile", JBool false);
    ("path", JNull);
    ("suggest", JObj [
       ("autoImports", JBool true);
       ("completeFunctionCalls", JBool false);
       ("names", JBool true);
       ("paths", JBool true);
       ("imports", JObj [("autoDiscover", JBool true); ("hosts", JObj [])])
     ]);
    ("testing", JNull);
    ("tlsCertificate", JNull);
    ("unsafelyIgnoreCertificateErrors", JNull);
    ("unstable", JBool false)
  ].

Definition initialStore : Store :=
  {| projectSettings := ∅; defaultSettings := initialDefaultSettings |}.

(** [Object.assign(target, source)]: every own field of [source] is
    written to [target]; [source] may be [undefined]. *)
Definition objectAssign (target : Settings) (source : option Settings) : Settings :=
  match source with
  | Some src => src ∪ target
  | None => target
  end.

(** [updateSettings(project, settings)], [projectName] being
    [project.getProjectName()]. *)
Definition updateSettings (projectName : string) (s : PluginSettings)
    (st : Store) : Store :=
  {| projectSettings := <[projectName := s]> (projectSettings st);
     defaultSettings := objectAssign (defaultSettings st) (workspace s) |}.

(** *** Enablement *)

(** [#denoEnabled()] *)
Definition denoEnabled (st : Store) (projectName : string) : bool :=
  let pluginSettings := projectSettings st !! projectName in
  let enable' : option bool :=
    match pluginSettings ?. workspace ?. enable with
    | Some b => Some b
    | None => enable (defaultSettings st)
    end in
  let hasDenoConfig' := nullish (pluginSettings ?. hasDenoConfig) false in
  nullish enable' hasDenoConfig'.

Definition isWin32 (p : Process) : bool := String.eqb (platform p) "win32".

Definition isAbsolute (p : Process) (path : string) : bool :=
  if isWin32 p then win32.isAbsolute path else posix.isAbsolute path.

Definition relative (p : Process) (from to : string) : string :=
  if isWin32 p then win32.relative p from to else posix.relative p from to.

Definition PARENT_RELATIVE_REGEX (p : Process) : Regex.t :=
  if isWin32 p
  then Regex.Seq (Regex.Chr ".") (Regex.Seq (Regex.Chr ".")
         (Regex.Alt (Regex.Class ["/"; "\"]%char) Regex.Eol))
  else Regex.Seq (Regex.Chr ".") (Regex.Seq (Regex.Chr ".")
         (Regex.Alt (Regex.Chr "/") Regex.Eol)).

(** Checks if [parent] is an ancestor of [child]. *)
Definition pathStartsWith (p : Process) (child parent : string) : bool :=
  if negb (Bool.eqb (isAbsolute p child) (isAbsolute p parent)) then false
  else
    let relative' := relative p parent child in
    negb (Regex.test (PARENT_RELATIVE_REGEX p) relative').

(** The [for (const path of pathFilter.disabled)] loop; [Some b] when it
    returns [b], [None] when it runs to its end. *)
Fixpoint disabledLoop (p : Process) (fileName : string) (paths : list string)
    : option bool :=
  match paths with
  | [] => None
  | path :: rest =>
      if pathStartsWith p fileName path then Some false
      else disabledLoop p fileName rest
  end.

(** The first lines of [#fileNameDenoEnabled]: the separators of the
    queried name on win32. *)
Definition normalizeFileName (p : Process) (fileName : string) : string :=
  if isWin32 p then Js.replaceAll "/" "\" fileName else fileName.

(** Evaluating an expression: it yields a value, or the engine throws a
    [TypeError]. *)
Inductive Outcome (A : Type) : Type :=
| Returns (a : A)
| ThrowsTypeError.
Arguments Returns {A} a.
Arguments ThrowsTypeError {A}.

(** The member names of [Object.prototype].  [documents] arrives as JSON
    and is a plain object: besides its own keys it answers to these names,
    with a function, or with [Object.prototype] itself for [__proto__]. *)
Definition objectPrototypeKeys : list string :=
  ["constructor"; "__defineGetter__"; "__defineSetter__"; "hasOwnProperty";
   "__lookupGetter__"; "__lookupSetter__"; "isPrototypeOf";
   "propertyIsEnumerable"; "toString"; "valueOf"; "__proto__";
   "toLocaleString"].

Definition isObjectPrototypeKey (key : string) : bool :=
  existsb (String.eqb key) objectPrototypeKeys.

(** [settings?.documents?.[fileName]?.settings.enable].  For a name that
    [documents] holds itself this is the [enable] of its entry.  For any
    other name [documents[fileName]] is [undefined] and so is the whole
    chain, unless the name is a member of [Object.prototype]: the member
    found is not nullish and has no [settings], and reading [enable] of
    [undefined] throws. *)
Definition documentEnable (s : option PluginSettings) (fileName : string)
    : Outcome (option bool) :=
  match s ?. documents with
  | Some docs =>
      match docs !! fileName with
      | Some d => Returns (enable (settings d))
      | None =>
          if isObjectPrototypeKey fileName then ThrowsTypeError else Returns None
      end
  | None => Returns None
  end.

(** [#fileNameDenoEnabled(fileName)] *)
Definition fileNameDenoEnabled (p : Process) (st : Store) (projectName : string)
    (fileName : string) : Outcome bool :=
  let fileName := normalizeFileName p fileName in
  let settings := projectSettings st !! projectName in
  let lastReturn :=
    match documentEnable settings fileName with
    | Returns override => Returns (nullish override (denoEnabled st projectName))
    | ThrowsTypeError => ThrowsTypeError
    end in
  match settings ?. pathFilters with
  | Some filters =>
      match List.find (fun f => pathStartsWith p fileName (PathFilter.workspace f))
              filters with
      | Some pathFilter =>
          match disabledLoop p fileName (PathFilter.disabled pathFilter) with
          | Some b => Returns b
          | None =>
              match PathFilter.enabled pathFilter with
              | Some paths =>
                  Returns (existsb (fun path => pathStartsWith p fileName path) paths)
              | None => lastReturn
              end
          end
      | None => lastReturn
      end
  | None => lastReturn
  end.

(** *** Values of the language service, and the heap

    Arguments and results of language-service operations are opaque to the
    plugin; arrays and objects have an identity, which is what the fresh
    [[]] of the wrappers is about. *)

Definition loc : Type := positive.

Inductive Value : Type :=
| VUndefined
| VNull
| VBool (b : bool)
| VNum (n : Z)
| VStr (s : string)
| VRef (l : loc).

Inductive HeapObject : Type :=
| HArray (items : list Value)
| HObject (fields : list (string * Value))
| HTypeError.                          (* an instance of [TypeError] *)

Abbreviation Heap := (gmap loc HeapObject).

(** An array or object literal: a new object at a location not in use. *)
Definition alloc (o : HeapObject) (h : Heap) : loc * Heap :=
  let l := fresh (dom h) in (l, <[l := o]> h).

(** [Array.isArray(v)] *)
Definition isArray (h : Heap) (v : Value) : bool :=
  match v with
  | VRef l =>
      match h !! l with
      | Some (HArray _) => true
      | _ => false
      end
  | _ => false
  end.

(** How a call ends. *)
Inductive Completion : Type :=
| Normal (v : Value)
| Throw (v : Value).

(** *** The host, as the plugin observes it *)

Inductive ProjectMethod : Type :=
| GetGlobalProjectErrors
| GetAllProjectErrors.

Inductive LogEntry : Type :=
| LogCall (fn : string) (args : list Value)        (* [this.#log(fn, args)] *)
| LogConfigurationChanged (s : PluginSettings).    (* [onConfigurationChanged(...)] *)

Inductive Event : Type :=
| EvLog (e : LogEntry)                             (* [logger.info] *)
| EvCall (fn : string) (args : list Value)         (* [target.call(ls, ...args)] *)
| EvProjectCall (m : ProjectMethod)                (* [original.call(project)] *)
| EvRefreshDiagnostics (projectName : string).     (* [project.refreshDiagnostics()] *)

(** A callback handed to [setImmediate]. *)
Inductive Task : Type :=
| TaskRefreshDiagnostics (projectName : string).

Record World : Type := {
  store : Store;
  heap : Heap;
  trace : list Event;
  immediates : list Task
}.

Definition emit (e : Event) (w : World) : World :=
  {| store := store w; heap := heap w; trace := trace w ++ [e];
     immediates := immediates w |}.

Definition setStore (st : Store) (w : World) : World :=
  {| store := st; heap := heap w; trace := trace w; immediates := immediates w |}.

Definition setImmediate (t : Task) (w : World) : World :=
  {| store := store w; heap := heap w; trace := trace w;
     immediates := immediates w ++ [t] |}.

(** Evaluating a literal in a world. *)
Definition new (o : HeapObject) (w : World) : Value * World :=
  let '(l, h) := alloc o (heap w) in
  (VRef l, {| store := store w; heap := h; trace := trace w;
              immediates := immediates w |}).

(** Functions of the host: they run in the world and end in a completion. *)
Definition Fn : Type := list Value -> World -> Completion * World.
Definition ProjectFn : Type := World -> Completion * World.
Definition Producer : Type := World -> Completion * World.

(** [ts.LanguageService]: its methods by name. *)
Definition LanguageService : Type := string -> Fn.

(** [ts.server.Project], the part the plugin touches. *)
Record Project : Type := {
  getProjectName : string;
  getGlobalProjectErrors : ProjectFn;
  getAllProjectErrors : ProjectFn
}.

Definition refreshDiagnostics (project : Project) (w : World) : World :=
  emit (EvRefreshDiagnostics (getProjectName project)) w.

(** The private fields of a [Plugin] once [create] has run. *)
Record Plugin : Type := {
  project : Project;
  projectName : string
}.

(** *** The interception factory *)

(** The third argument of [callIfDisabled]: a function, or any other
    value. *)
Inductive EmptyReturn : Type :=
| ERFunction (f : Producer)
| ERValue (v : Value).

(** A wrapped operation.  [None] only when the argument at the declared
    file-name position is not a string, which the operation's signature
    rules out. *)
Definition Wrapped : Type := list Value -> World -> option (Completion * World).

(** The [enabled] of a wrapped call, or the [TypeError] in its place. *)
Definition resolveEnabled (p : Process) (this : Plugin) (fileNameArg : option nat)
    (args : list Value) (st : Store) : option (Outcome bool) :=
  match fileNameArg with
  | Some i =>
      match args !! i with
      | Some (VStr fileName) =>
          Some (fileNameDenoEnabled p st (projectName this) fileName)
      | _ => None
      end
  | None => Some (Returns (denoEnabled st (projectName this)))
  end.

(** The engine throws a [TypeError]: a new error object. *)
Definition throwTypeError (w : World) : Completion * World :=
  let '(e, w') := new HTypeError w in (Throw e, w').

(** The value answered in place of the call. *)
Definition freshEmptyReturn (emptyReturn : EmptyReturn) (w : World)
    : Completion * World :=
  match emptyReturn with
  | ERValue v =>
      if isArray (heap w) v
      then let '(a, w') := new (HArray []) w in (Normal a, w')
      else (Normal v, w)
  | ERFunction f => f w
  end.

(** [callIfDisabled(fn, fileNameArg, emptyReturn)] *)
Definition callIfDisabled (p : Process) (ls : LanguageService) (this : Plugin)
    (fn : string) (fileNameArg : option nat) (emptyReturn : EmptyReturn)
    : Wrapped :=
  let target := ls fn in
  fun args w =>
    let w := emit (EvLog (LogCall fn args)) w in
    match resolveEnabled p this fileNameArg args (store w) with
    | None => None
    | Some ThrowsTypeError => Some (throwTypeError w)
    | Some (Returns enabled) =>
        Some (if enabled
              then freshEmptyReturn emptyReturn w
              else target args (emit (EvCall fn args) w))
    end.

(** The replacements of [project.getGlobalProjectErrors] and
    [project.getAllProjectErrors]. *)
Definition muteProjectErrors (this : Plugin) (m : ProjectMethod)
    (original : ProjectFn) : ProjectFn :=
  fun w =>
    if denoEnabled (store w) (projectName this)
    then let '(a, w') := new (HArray []) w in (Normal a, w')
    else original (emit (EvProjectCall m) w).

(** *** The table of wrapped operations in [create] *)

Inductive Neutral : Type :=
| EmptyArray         (* [[]] *)
| Undefined          (* [undefined] *)
| Classifications    (* [() => ({ spans: [], endOfLineState: 0 })] *)
| NavigationTree.    (* [() => ({ text: "", kind: "", ... })] *)

Definition emptyClassifications : Producer :=
  fun w =>
    let '(spans, w) := new (HArray []) w in
    let '(o, w) := new (HObject [("spans", spans); ("endOfLineState", VNum 0)]) w in
    (Normal o, w).

Definition emptyNavigationTree : Producer :=
  fun w =>
    let '(spans, w) := new (HArray []) w in
    let '(o, w) :=
      new (HObject [("text", VStr EmptyString); ("kind", VStr EmptyString);
                    ("kindModifiers", VStr EmptyString); ("spans", spans);
                    ("nameSpan", VUndefined)]) w in
    (Normal o, w).

(** Evaluating the third argument at the call of [callIfDisabled]. *)
Definition evalNeutral (n : Neutral) (w : World) : EmptyReturn * World :=
  match n with
  | EmptyArray => let '(a, w') := new (HArray []) w in (ERValue a, w')
  | Undefined => (ERValue VUndefined, w)
  | Classifications => (ERFunction emptyClassifications, w)
  | NavigationTree => (ERFunction emptyNavigationTree, w)
  end.

Definition wrappedOperations : list (string * option nat * Neutral) := [
  ("commentSelection", Some 0%nat, EmptyArray);
  ("findReferences", Some 0%nat, Undefined);
  ("findRenameLocations", Some 0%nat, Undefined);
  ("getApplicableRefactors", Some 0%nat, EmptyArray);
  ("getBraceMatchingAtPosition", Some 0%nat, EmptyArray);
  ("getBreakpointStatementAtPosition", Some 0%nat, Undefined);
  ("getCodeFixesAtPosition", Some 0%nat, EmptyArray);
  ("getCompilerOptionsDiagnostics", None, EmptyArray);
  ("getCompletionEntryDetails", Some 0%nat, Undefined);
  ("getCompletionEntrySymbol", Some 0%nat, Undefined);
  ("getCompletionsAtPosition", Some 0%nat, Undefined);
  ("getDefinitionAndBoundSpan", Some 0%nat, Undefined);
  ("getDefinitionAtPosition", Some 0%nat, Undefined);
  ("getDocCommentTemplateAtPosition", Some 0%nat, Undefined);
  ("getDocumentHighlights", Some 0%nat, Undefined);
  ("getEditsForFileRename", Some 0%nat, EmptyArray);
  ("getEditsForRefactor", Some 0%nat, Undefined);
  ("getEncodedSemanticClassifications", Some 0%nat, Classifications);
  ("getEncodedSyntacticClassifications", Some 0%nat, Classifications);
  ("getImplementationAtPosition", Some 0%nat, Undefined);
  ("getJsxClosingTagAtPosition", Some 0%nat, Undefined);
  ("getNameOrDottedNameSpan", Some 0%nat, Undefined);
  ("getNavigateToItems", None, EmptyArray);
  ("getNavigationBarItems", Some 0%nat, EmptyArray);
  ("getNavigationTree", Some 0%nat, NavigationTree);
  ("getOutliningSpans", Some 0%nat, EmptyArray);
  ("getQuickInfoAtPosition", Some 0%nat, Undefined);
  ("getReferencesAtPosition", Some 0%nat, Undefined);
  ("getSemanticClassifications", Some 0%nat, EmptyArray);
  ("getSemanticDiagnostics", Some 0%nat, EmptyArray);
  ("getSignatureHelpItems", Some 0%nat, Undefined);
  ("getSpanOfEnclosingComment", Some 0%nat, Undefined);
  ("getSuggestionDiagnostics", Some 0%nat, EmptyArray);
  ("getSyntacticDiagnostics", Some 0%nat, EmptyArray);
  ("getSyntacticClassifications", Some 0%nat, EmptyArray);
  ("getTodoComments", Some 0%nat, EmptyArray);
  ("getTypeDefinitionAtPosition", Some 0%nat, Undefined);
  ("prepareCallHierarchy", Some 0%nat, Undefined);
  ("provideCallHierarchyIncomingCalls", Some 0%nat, EmptyArray);
  ("provideCallHierarchyOutgoingCalls", Some 0%nat, EmptyArray);
  ("provideInlayHints", Some 0%nat, EmptyArray);
  ("toggleLineComment", Some 0%nat, EmptyArray);
  ("toggleMultilineComment", Some 0%nat, EmptyArray);
  ("uncommentSelection", Some 0%nat, EmptyArray)
].

(** The [const x = callIfDisabled("x", i, e)] declarations, in order. *)
Fixpoint declareWrapped (p : Process) (ls : LanguageService) (this : Plugin)
    (table : list (string * option nat * Neutral)) (w : World)
    : list (string * Wrapped) * World :=
  match table with
  | [] => ([], w)
  | (fn, fileNameArg, n) :: rest =>
      let '(emptyReturn, w) := evalNeutral n w in
      let '(wrapped, w) := declareWrapped p ls this rest w in
      ((fn, callIfDisabled p ls this fn fileNameArg emptyReturn) :: wrapped, w)
  end.

Fixpoint lookupWrapped (fn : string) (l : list (string * Wrapped)) : option Wrapped :=
  match l with
  | [] => None
  | (name, f) :: rest => if String.eqb name fn then Some f else lookupWrapped fn rest
  end.

Record PluginCreateInfo : Type := {
  languageService : LanguageService;
  info_project : Project;
  config : PluginSettings
}.

(** What [create] leaves behind: the plugin's fields, the project with
    its two replaced methods, and the returned language service. *)
Record Created : Type := {
  plugin : Plugin;
  createdProject : Project;
  service : string -> Wrapped
}.

(** [create(info)] *)
Definition create (p : Process) (info : PluginCreateInfo) (w : World)
    : Created * World :=
  let ls := languageService info in
  let project := info_project info in
  let this := {| project := project; projectName := getProjectName project |} in
  let w := setStore (updateSettings (getProjectName project) (config info) (store w)) w in
  let w := setImmediate (TaskRefreshDiagnostics (getProjectName project)) w in
  let project' :=
    {| getProjectName := getProjectName project;
       getGlobalProjectErrors :=
         muteProjectErrors this GetGlobalProjectErrors (getGlobalProjectErrors project);
       getAllProjectErrors :=
         muteProjectErrors this GetAllProjectErrors (getAllProjectErrors project) |} in
  let '(wrapped, w) := declareWrapped p ls this wrappedOperations w in
  ({| plugin := {| project := project'; projectName := getProjectName project |};
      createdProject := project';
      service := fun fn =>
        match lookupWrapped fn wrapped with
        | Some f => f
        | None => fun args w => Some (ls fn args w)   (* [...ls] *)
        end |}, w).

(** [onConfigurationChanged(settings)] *)
Definition onConfigurationChanged (this : Plugin) (s : PluginSettings) (w : World)
    : World :=
  let w := emit (EvLog (LogConfigurationChanged s)) w in
  let w := setStore (updateSettings (getProjectName (project this)) s (store w)) w in
  refreshDiagnostics (project this) w.

(** The event loop running the oldest callback of [setImmediate]. *)
Definition runImmediate (w : World) : World :=
  match immediates w with
  | [] => w
  | TaskRefreshDiagnostics name :: rest =>
      emit (EvRefreshDiagnostics name)
        {| store := store w; heap := heap w; trace := trace w; immediates := rest |}
  end.

End Plugin.

Import NodePath Plugin.

(** ** The descriptions of the operations, in their own words

    Definitions that follow the prose description of the plugin, to be
    compared with the code above. *)

Module SpecWords.

(** The relative path begins with, or is, a parent-directory segment:
    [..] followed by a separator or by the end of the string. *)
Definition beginsWithParentSegment (p : Process) (rel : string) : bool :=
  match rel with
  | String "." (String "." EmptyString) => true
  | String "." (String "." (String c _)) =>
      if isWin32 p then isPathSeparator c else isPosixPathSeparator c
  | _ => false
  end.

(** The ancestry test in the words of its description. *)
Definition isAncestor (p : Process) (child parent : string) : bool :=
  if negb (Bool.eqb (isAbsolute p child) (isAbsolute p parent)) then false
  else negb (beginsWithParentSegment p (relative p parent child)).

(** The project-wide enablement without the process-wide default:
    [workspace.enable] when set, else [hasDenoConfig], else false. *)
Definition isGloballyEnabled (s : option PluginSettings) : bool :=
  nullish (s ?. workspace ?. enable) (nullish (s ?. hasDenoConfig) false).

(** The per-document override [documents[filePath].settings.enable], if
    present. *)
Definition documentOverride (s : option PluginSettings) (filePath : string)
    : option bool :=
  match s ?. documents with
  | Some docs =>
      match docs !! filePath with
      | Some d => enable (settings d)
      | None => None
      end
  | None => None
  end.

(** The file-scoped enablement in the words of its description, for a
    project whose settings are [s] and whose project-wide enablement is
    [global].  The first filter whose workspace is an ancestor of the file
    path is selected; in it, a disabled path above the file means [false];
    else an enabled list, when there is one, decides by whether one of its
    paths is above the file; else, and when no filter is selected, the
    per-document override decides if present, and [global] if not. *)
Definition isFileEnabled (p : Process) (s : option PluginSettings) (global : bool)
    (filePath : string) : bool :=
  let fallThrough := nullish (documentOverride s filePath) global in
  match s ?. pathFilters with
  | Some filters =>
      match List.find (fun f => isAncestor p filePath (PathFilter.workspace f))
              filters with
      | Some f =>
          if existsb (fun d => isAncestor p filePath d) (PathFilter.disabled f)
          then false
          else
            match PathFilter.enabled f with
            | Some paths => existsb (fun e => isAncestor p filePath e) paths
            | None => fallThrough
            end
      | None => fallThrough
      end
  | None => fallThrough
  end.

(** The requests to refresh diagnostics in a trace. *)
Definition countRefresh (events : list Event) : nat :=
  List.length (List.filter
    (fun e => match e with EvRefreshDiagnostics _ => true | _ => false end) events).

End SpecWords.

(** ** Fixtures: concrete processes for the worked examples *)

Module Fixture.

Definition linux : Process :=
  {| platform := "linux"; cwd := "/home/user"; env := ∅ |}.

Definition windows : Process :=
  {| platform := "win32"; cwd := "C:\Users\user"; env := ∅ |}.

End Fixture.

(** Settings, stores and hosts of the worked examples. *)

Module ExampleFilter.

(** [{workspace: "/ws", enabled: ["/ws/src"], disabled: ["/ws/src/gen"]}] *)
Definition ws : PathFilter.t :=
  {| PathFilter.workspace := "/ws";
     PathFilter.disabled := ["/ws/src/gen"];
     PathFilter.enabled := Some ["/ws/src"] |}.

End ExampleFilter.

Module Example.

(** Project B leaves [enable] unset and has a Deno configuration file;
    project A switches Deno off. *)
Definition settingsB : PluginSettings :=
  {| workspace := Some {[ "enable" := JNull ]};
     documents := None;
     hasDenoConfig := Some true;
     pathFilters := None |}.

Definition settingsA : PluginSettings :=
  {| workspace := Some {[ "enable" := JBool false ]};
     documents := None;
     hasDenoConfig := Some false;
     pathFilters := None |}.

(** B is configured first, then A. *)
Definition storeBA : Store :=
  updateSettings "A" settingsA (updateSettings "B" settingsB initialStore).

End Example.

Module ExampleHost.

Definition name : string := "/ws/tsconfig.json".

(** The heap holds one array of the host, at location 1, with one element,
    and the array literal handed to [callIfDisabled], at location 2. *)
Definition heap0 : Heap :=
  {[ 1%positive := HArray [VStr "diagnostic"]; 2%positive := HArray [] ]}.

(** A language service all of whose operations answer with the host's
    array. *)
Definition ls : LanguageService := fun _ _ w => (Normal (VRef 1%positive), w).

Definition project0 : Project :=
  {| getProjectName := name;
     getGlobalProjectErrors := fun w => (Normal (VRef 1%positive), w);
     getAllProjectErrors := fun w => (Normal (VRef 1%positive), w) |}.

Definition this : Plugin := {| project := project0; projectName := name |}.

Definition settingsWith (b : bool) : PluginSettings :=
  {| workspace := Some {[ "enable" := JBool b ]};
     documents := None;
     hasDenoConfig := None;
     pathFilters := None |}.

(** Deno switched off, and on, for the project. *)
Definition worldOff : World :=
  {| store := updateSettings name (settingsWith false) initialStore;
     heap := heap0; trace := []; immediates := [] |}.

Definition worldOn : World :=
  {| store := updateSettings name (settingsWith true) initialStore;
     heap := heap0; trace := []; immediates := [] |}.

Definition args : list Value := [VStr "/ws/a.ts"].

(** [callIfDisabled("getSemanticDiagnostics", 0, [])] *)
Definition getSemanticDiagnostics : Wrapped :=
  callIfDisabled Fixture.linux ls this "getSemanticDiagnostics" (Some 0%nat)
    (ERValue (VRef 2%positive)).

(** The wrapped operation called twice in a row; [None] as for one call. *)
Definition twice (f : Wrapped) (args1 args2 : list Value) (w : World)
    : option (Completion * Completion * World) :=
  match f args1 w with
  | Some (r1, w1) =>
      match f args2 w1 with
      | Some (r2, w2) => Some (r1, r2, w2)
      | None => None
      end
  | None => None
  end.

(** A project on win32 with the example filter and Deno not enabled
    project-wide. *)
Definition storeFiltered : Store :=
  updateSettings name
    {| workspace := Some {[ "enable" := JNull ]};
       documents := None;
       hasDenoConfig := Some false;
       pathFilters := Some [ExampleFilter.ws] |}
    initialStore.

End ExampleHost.

Module ExampleEmptyList.

(** A filter for [/ws] whose enabled list is empty. *)
Definition filter : PathFilter.t :=
  {| PathFilter.workspace := "/ws";
     PathFilter.disabled := [];
     PathFilter.enabled := Some [] |}.

(** Deno is enabled for the project, and for [/ws/a.ts] by a per-document
    override as well. *)
Definition store : Store :=
  updateSettings ExampleHost.name
    {| workspace := Some {[ "enable" := JBool true ]};
       documents := Some {[ "/ws/a.ts" := {| settings := {[ "enable" := JBool true ]} |} ]};
       hasDenoConfig := Some true;
       pathFilters := Some [filter] |}
    initialStore.

(** Another project: the example filter first, the empty one after it, and
    Deno enabled project-wide. *)
Definition storeTwoFilters : Store :=
  updateSettings "/other/tsconfig.json"
    {| workspace := Some {[ "enable" := JBool true ]};
       documents := Some {[ "/ws/other.ts" := {| settings := {[ "enable" := JBool true ]} |} ]};
       hasDenoConfig := Some true;
       pathFilters := Some [ExampleFilter.ws; filter] |}
    initialStore.

End ExampleEmptyList.

Module ExampleResolution.

(** Deno is switched off for the project and switched on for [/ws/a.ts] by
    a per-document override; there are no path filters. *)
Definition storeOverride : Store :=
  updateSettings ExampleHost.name
    {| workspace := Some {[ "enable" := JBool false ]};
       documents := Some {[ "/ws/a.ts" := {| settings := {[ "enable" := JBool true ]} |} ]};
       hasDenoConfig := None;
       pathFilters := None |}
    initialStore.

(** The example filter in a project for which Deno is switched on. *)
Definition storeFilteredOn : Store :=
  updateSettings ExampleHost.name
    {| workspace := Some {[ "enable" := JBool true ]};
       documents := None;
       hasDenoConfig := None;
       pathFilters := Some [ExampleFilter.ws] |}
    initialStore.

(** No path filters, and an override for another file only. *)
Definition storeDocuments : Store :=
  updateSettings ExampleHost.name
    {| workspace := Some {[ "enable" := JBool true ]};
       documents := Some {[ "/ws/a.ts" := {| settings := {[ "enable" := JBool false ]} |} ]};
       hasDenoConfig := None;
       pathFilters := None |}
    initialStore.

End ExampleResolution.

(** ** Further descriptions, for the properties beyond the ancestry test *)

Module Describe.

(** The separator that may follow [..] in [PARENT_RELATIVE_REGEX]. *)
Definition followsParent (p : Process) (c : ascii) : bool :=
  if isWin32 p then isPathSeparator c else isPosixPathSeparator c.

(** [s] holds, somewhere, two dots followed by a separator or by the end of
    the string. *)
Definition hasParentSegment (p : Process) (s : string) : Prop :=
  exists pre post,
    s = pre +:+ ".." +:+ post
    /\ (post = EmptyString
        \/ exists c rest, post = String c rest /\ followsParent p c = true).

(** On the way from [parent] down to [child] no name ends in two dots:
    where [parent] is an ancestor of [child], the relative path holds
    nowhere two dots followed by a separator or by the end of the string. *)
Definition plainDescent (p : Process) (child parent : string) : Prop :=
  SpecWords.isAncestor p child parent = true ->
  ~ hasParentSegment p (relative p parent child).

(** Every path that the filters of [s] name: workspaces, disabled paths and
    enabled paths. *)
Definition filterPaths (s : option PluginSettings) : list string :=
  match s ?. pathFilters with
  | Some filters =>
      flat_map (fun f => PathFilter.workspace f
                         :: (PathFilter.disabled f
                             ++ nullish (PathFilter.enabled f) [])%list)
        filters
  | None => []
  end.

(** A run of configuration messages, oldest first: the project each is for
    and its settings. *)
Definition applyUpdates (updates : list (string * PluginSettings)) (st : Store)
    : Store :=
  fold_left (fun st u => updateSettings (fst u) (snd u) st) updates st.

(** The settings of the latest message for [projectName], if any. *)
Fixpoint latestFor (projectName : string) (updates : list (string * PluginSettings))
    : option PluginSettings :=
  match updates with
  | [] => None
  | (n, s) :: rest =>
      match latestFor projectName rest with
      | Some s' => Some s'
      | None => if String.eqb n projectName then Some s else None
      end
  end.

(** The value of [field] in the workspace settings of the latest message
    that has the field, if any. *)
Fixpoint latestField (field : string) (updates : list (string * PluginSettings))
    : option Json :=
  match updates with
  | [] => None
  | (_, s) :: rest =>
      match latestField field rest with
      | Some v => Some v
      | None => workspace s ?. (fun ws => ws !! field)
      end
  end.

(** What a neutral answer looks like, by the kind declared in the table:
    [v] is the answer, [old] the heap before the call and [h] the heap after
    it.  Every object of the answer is new. *)
Definition neutralShape (n : Neutral) (v : Value) (old h : Heap) : Prop :=
  match n with
  | EmptyArray =>
      exists l, v = VRef l /\ old !! l = None /\ h !! l = Some (HArray [])
  | Undefined => v = VUndefined
  | Classifications =>
      exists l a,
        v = VRef l /\ l <> a /\ old !! l = None /\ old !! a = None
        /\ h !! l = Some (HObject [("spans", VRef a); ("endOfLineState", VNum 0)])
        /\ h !! a = Some (HArray [])
  | NavigationTree =>
      exists l a,
        v = VRef l /\ l <> a /\ old !! l = None /\ old !! a = None
        /\ h !! l = Some (HObject [("text", VStr EmptyString);
                                   ("kind", VStr EmptyString);
                                   ("kindModifiers", VStr EmptyString);
                                   ("spans", VRef a);
                                   ("nameSpan", VUndefined)])
        /\ h !! a = Some (HArray [])
  end.

(** The third argument of [callIfDisabled] as [create] evaluates it for a
    table entry of kind [n], on the heap [h]. *)
Definition declaredNeutral (n : Neutral) (emptyReturn : EmptyReturn) (h : Heap) : Prop :=
  match n with
  | EmptyArray => exists l, emptyReturn = ERValue (VRef l) /\ h !! l = Some (HArray [])
  | Undefined => emptyReturn = ERValue VUndefined
  | Classifications => emptyReturn = ERFunction emptyClassifications
  | NavigationTree => emptyReturn = ERFunction emptyNavigationTree
  end.

End Describe.

(** ** Ordinary absolute paths on POSIX

    Paths as lists of segments, and the loops of [path.posix] restated on
    what is left of the strings they walk, for the proofs about them. *)

Module PosixPaths.

Definition noSlash (s : string) : bool := negb (Js.contains "/" s).

(** An ordinary segment: not empty, without [/], and neither [.] nor
    [..]. *)
Definition plainSegment (s : string) : bool :=
  negb (String.eqb s EmptyString) && noSlash s
  && negb (String.eqb s ".") && negb (String.eqb s "..").

(** The segments joined by [/]. *)
Fixpoint joinSegments (segs : list string) : string :=
  match segs with
  | [] => EmptyString
  | [s] => s
  | s :: rest => s +:+ "/" +:+ joinSegments rest
  end.

(** The absolute path with these segments; the root for no segment. *)
Definition absolutePath (segs : list string) : string := "/" +:+ joinSegments segs.

(** The segment ends in two dots. *)
Fixpoint endsWithTwoDots (s : string) : bool :=
  match s with
  | EmptyString => false
  | String c s' => String.eqb (String c s') ".." || endsWithTwoDots s'
  end.

(** What is left of [ts] after the prefix [fs], if [fs] is a prefix. *)
Fixpoint dropPrefix (fs ts : list string) : option (list string) :=
  match fs, ts with
  | [], _ => Some ts
  | f :: fs', t :: ts' => if String.eqb f t then dropPrefix fs' ts' else None
  | _ :: _, [] => None
  end.

(** Each segment followed by [/]: what [normalizeString] reads after the
    leading [/] of a resolved path. *)
Fixpoint trail (segs : list string) : string :=
  match segs with
  | [] => EmptyString
  | s :: rest => s +:+ "/" +:+ trail rest
  end.

(** The state of [normalizeString] after one character that is no
    separator, and after a run of them. *)
Definition scanChar (c : ascii) (st : NormState) : NormState :=
  {| res := res st; lastSegmentLength := lastSegmentLength st;
     lastSlash := lastSlash st;
     dots := if Ascii.eqb c CHAR_DOT && negb (dots st =? -1) then dots st + 1 else -1;
     code := c |}.

Fixpoint scan (t : string) (st : NormState) : NormState :=
  match t with
  | EmptyString => st
  | String c t' => scan t' (scanChar c st)
  end.

Definition withCode (c : ascii) (st : NormState) : NormState :=
  {| res := res st; lastSegmentLength := lastSegmentLength st;
     lastSlash := lastSlash st; dots := dots st; code := c |}.

Fixpoint allDots (t : string) : bool :=
  match t with
  | EmptyString => true
  | String c t' => Ascii.eqb c CHAR_DOT && allDots t'
  end.

(** [res] after an ordinary segment is closed. *)
Definition appendSeg (r t : string) : string :=
  if 0 <? Js.length r then r +:+ "/" +:+ t else t.

(** The comparison loop of [relative], on what is left of the two
    strings: the index where they part and the last common separator. *)
Fixpoint common (F T : string) (i : Z) (lcs : Z) : Z * Z :=
  match F, T with
  | String a F', String b T' =>
      if negb (Ascii.eqb a b) then (i, lcs)
      else common F' T' (i + 1) (if Ascii.eqb a CHAR_FORWARD_SLASH then i else lcs)
  | _, _ => (i, lcs)
  end.

(** [lcs] is [-1] or the index, below [bound], of a [/] of [T]. *)
Definition lcsOk (T : string) (lcs bound : Z) : Prop :=
  lcs = -1
  \/ exists C1 rest, T = C1 +:+ String "/" rest /\ lcs = Js.length C1 /\ lcs < bound.

(** [k] times [/..]. *)
Fixpoint ups (k : nat) : string :=
  match k with
  | O => EmptyString
  | S k' => ups k' +:+ "/.."
  end.

Definition isUp (s : string) : Prop := exists k, s = ".." +:+ ups k.

(** The end of [posix.relative]: the [..] steps, then the rest of [to]. *)
Definition finishRelative (from to : string) (lastCommonSep : Z) : string :=
  posix.upLoop CHAR_FORWARD_SLASH from (Js.length from) (S (Z.to_nat (Js.length from)))
    (1 + lastCommonSep + 1) EmptyString
  +:+ Js.sliceFrom to (1 + lastCommonSep).

(** [posix.relative] once both paths are resolved, to [/F] and [/T], and
    found different. *)
Definition relativeTail (F T : string) : string :=
  let from := String "/" F in
  let to := String "/" T in
  let fromLen := Js.length F in
  let toLen := Js.length T in
  let length := if fromLen <? toLen then fromLen else toLen in
  let '(i, lastCommonSep) := common F T 0 (-1) in
  if i =? length then
    if length <? toLen then
      if Js.charIs to (1 + i) CHAR_FORWARD_SLASH then Js.sliceFrom to (1 + i + 1)
      else if i =? 0 then Js.sliceFrom to (1 + i)
      else finishRelative from to lastCommonSep
    else if length <? fromLen then
      if Js.charIs from (1 + i) CHAR_FORWARD_SLASH then finishRelative from to i
      else if i =? 0 then finishRelative from to 0
      else finishRelative from to lastCommonSep
    else finishRelative from to lastCommonSep
  else finishRelative from to lastCommonSep.

End PosixPaths.

(** * Properties *)

(** ** The path ancestry test *)

Section PathAncestry.
Variable p : Process.

Lemma regex_test_empty : Regex.test (PARENT_RELATIVE_REGEX p) EmptyString = false.
Proof. unfold PARENT_RELATIVE_REGEX. destruct (isWin32 p); reflexivity. Qed.

Lemma relative_same (x : string) : relative p x x = EmptyString.
Proof.
  unfold relative, win32.relative, posix.relative.
  rewrite String.eqb_refl. destruct (isWin32 p); reflexivity.
Qed.

(** Every path is its own ancestor. *)
Lemma pathStartsWith_refl (x : string) : pathStartsWith p x x = true.
Proof.
  unfold pathStartsWith.
  rewrite eqb_reflx. cbn [negb].
  rewrite relative_same, regex_test_empty. reflexivity.
Qed.

(** For two paths of the same kind the answer is the unanchored search
    of the regular expression in the relative path. *)
Lemma pathStartsWith_same_kind (child parent : string) :
  isAbsolute p child = isAbsolute p parent ->
  pathStartsWith p child parent
  = negb (Regex.test (PARENT_RELATIVE_REGEX p) (relative p parent child)).
Proof.
  intros H. unfold pathStartsWith. rewrite H, eqb_reflx. reflexivity.
Qed.

(** A match at the start of the relative path is the parent segment of the
    description. *)
Lemma matchesAtStart_parent_segment (rel : string) :
  Regex.matchesAtStart (PARENT_RELATIVE_REGEX p) rel
  = SpecWords.beginsWithParentSegment p rel.
Proof.
  unfold PARENT_RELATIVE_REGEX, SpecWords.beginsWithParentSegment,
    Regex.matchesAtStart, isPathSeparator, isPosixPathSeparator,
    CHAR_FORWARD_SLASH, CHAR_BACKWARD_SLASH.
  destruct rel as [|c1 rel]; [destruct (isWin32 p); reflexivity|].
  destruct (Ascii.eqb_spec c1 ".") as [->|Hc1].
  2:{ assert (Ascii.eqb c1 "." = false) as E by (apply Ascii.eqb_neq; exact Hc1).
      transitivity false.
      - destruct (isWin32 p); cbn; rewrite E; reflexivity.
      - destruct c1 as [[] [] [] [] [] [] [] []]; try reflexivity.
        exfalso. apply Hc1. reflexivity. }
  destruct rel as [|c2 rel]; [destruct (isWin32 p); reflexivity|].
  destruct (Ascii.eqb_spec c2 ".") as [->|Hc2].
  2:{ assert (Ascii.eqb c2 "." = false) as E by (apply Ascii.eqb_neq; exact Hc2).
      transitivity false.
      - destruct (isWin32 p); cbn; rewrite E; reflexivity.
      - destruct c2 as [[] [] [] [] [] [] [] []]; try reflexivity.
        exfalso. apply Hc2. reflexivity. }
  destruct rel as [|c3 rel]; [destruct (isWin32 p); reflexivity|].
  destruct (isWin32 p); cbn.
  - destruct (Ascii.eqb c3 "/"), (Ascii.eqb c3 "\"); reflexivity.
  - destruct (Ascii.eqb c3 "/"); reflexivity.
Qed.

(** The direction of the description that the code does keep: a relative
    path that begins with a parent segment means "not an ancestor". *)
Lemma pathStartsWith_parent_segment (child parent : string) :
  SpecWords.beginsWithParentSegment p (relative p parent child) = true ->
  pathStartsWith p child parent = false.
Proof.
  intros H. unfold pathStartsWith.
  destruct (negb _); [reflexivity|].
  rewrite <- matchesAtStart_parent_segment in H.
  destruct (relative p parent child); cbn [Regex.test]; rewrite H; reflexivity.
Qed.

(** C6.  When exactly one of [child] and [parent] is absolute, the test
    answers [false]: the mixed comparison is a definite "not an ancestor",
    and the function, total on strings, rejects no pair of paths. *)
Theorem pathStartsWith_mixed_kinds (child parent : string) :
  isAbsolute p child <> isAbsolute p parent ->
  pathStartsWith p child parent = false.
Proof.
  intros H. unfold pathStartsWith.
  destruct (isAbsolute p child), (isAbsolute p parent); try reflexivity;
    exfalso; apply H; reflexivity.
Qed.

End PathAncestry.

Lemma pathStartsWith_mixed_kinds_witness :
  isAbsolute Fixture.linux "/a/b" <> isAbsolute Fixture.linux "rel"
  /\ pathStartsWith Fixture.linux "/a/b" "rel" = false.
Proof.
  assert (isAbsolute Fixture.linux "/a/b" <> isAbsolute Fixture.linux "rel") as H
    by (vm_compute; discriminate).
  split; [exact H | exact (pathStartsWith_mixed_kinds Fixture.linux "/a/b" "rel" H)].
Defined.

Lemma pathStartsWith_parent_segment_witness :
  SpecWords.beginsWithParentSegment Fixture.linux (relative Fixture.linux "/a/b" "/a") = true
  /\ pathStartsWith Fixture.linux "/a" "/a/b" = false.
Proof.
  assert (SpecWords.beginsWithParentSegment Fixture.linux
            (relative Fixture.linux "/a/b" "/a") = true) as H
    by (vm_compute; reflexivity).
  split; [exact H|exact (pathStartsWith_parent_segment Fixture.linux "/a" "/a/b" H)].
Defined.

(** The examples of the description that hold. *)
Lemma pathStartsWith_examples :
  pathStartsWith Fixture.linux "/a/b" "/a" = true
  /\ pathStartsWith Fixture.linux "/a" "/a/b" = false
  /\ pathStartsWith Fixture.linux "/a/b" "rel" = false.
Proof. repeat split; vm_compute; reflexivity. Qed.

(** C5.  The regular expression is searched anywhere in the relative path,
    not only at its start.  From [/a] to [/a/b..] the relative path is
    [b..]: it does not begin with a parent segment, [/a] is an ancestor of
    [/a/b..], and yet the test answers [false], where the description of
    the test answers [true]. *)
Theorem pathStartsWith_unanchored :
  isAbsolute Fixture.linux "/a/b.." = isAbsolute Fixture.linux "/a"
  /\ relative Fixture.linux "/a" "/a/b.." = "b.."
  /\ SpecWords.beginsWithParentSegment Fixture.linux "b.." = false
  /\ SpecWords.isAncestor Fixture.linux "/a/b.." "/a" = true
  /\ pathStartsWith Fixture.linux "/a/b.." "/a" = false.
Proof. repeat split; vm_compute; reflexivity. Qed.

(** ** The ancestry test, as the code decides it *)

Section ParentSegment.
Variable p : Process.

Lemma beginsWithParentSegment_shape (s : string) :
  SpecWords.beginsWithParentSegment p s = true <->
  exists post,
    s = ".." +:+ post
    /\ (post = EmptyString
        \/ exists c rest, post = String c rest /\ Describe.followsParent p c = true).
Proof.
  unfold SpecWords.beginsWithParentSegment, Describe.followsParent. split.
  - destruct s as [|c1 s]; [discriminate|].
    destruct (Ascii.eqb_spec c1 ".") as [->|H1].
    2:{ destruct c1 as [[] [] [] [] [] [] [] []];
          first [discriminate | exfalso; apply H1; reflexivity]. }
    destruct s as [|c2 post]; [discriminate|].
    destruct (Ascii.eqb_spec c2 ".") as [->|H2].
    2:{ destruct c2 as [[] [] [] [] [] [] [] []];
          first [discriminate | exfalso; apply H2; reflexivity]. }
    intros H. exists post. split; [reflexivity|].
    destruct post as [|c rest]; [left; reflexivity|right; eauto].
  - intros (post & -> & [->|(c & rest & -> & Hc)]); cbn; [reflexivity|exact Hc].
Qed.

Lemma regex_test_step (c : ascii) (s : string) :
  Regex.test (PARENT_RELATIVE_REGEX p) (String c s)
  = SpecWords.beginsWithParentSegment p (String c s)
    || Regex.test (PARENT_RELATIVE_REGEX p) s.
Proof. cbn [Regex.test]. rewrite matchesAtStart_parent_segment. reflexivity. Qed.

Lemma regex_test_hasParentSegment (s : string) :
  Regex.test (PARENT_RELATIVE_REGEX p) s = true <-> Describe.hasParentSegment p s.
Proof.
  unfold Describe.hasParentSegment. induction s as [|c s IH].
  - rewrite regex_test_empty. split; [discriminate|].
    intros (pre & post & H & _). destruct pre; discriminate.
  - rewrite regex_test_step, orb_true_iff, beginsWithParentSegment_shape, IH.
    split.
    + intros [(post & -> & Hpost)|(pre & post & -> & Hpost)].
      * exists EmptyString, post. split; [reflexivity|exact Hpost].
      * exists (String c pre), post. split; [reflexivity|exact Hpost].
    + intros (pre & post & Heq & Hpost). destruct pre as [|c' pre].
      * left. exists post. split; [exact Heq|exact Hpost].
      * right. cbn in Heq. inversion Heq; subst.
        exists pre, post. split; [reflexivity|exact Hpost].
Qed.

(** [pathStartsWith] answers [true] exactly when the two paths are both
    absolute or both relative and the relative path from [parent] to [child]
    holds nowhere two dots followed by a separator or by the end of the
    string: the search is not tied to the start of the relative path, so a
    name that ends in two dots counts as a parent segment. *)
Theorem pathStartsWith_iff (child parent : string) :
  pathStartsWith p child parent = true <->
  isAbsolute p child = isAbsolute p parent
  /\ ~ Describe.hasParentSegment p (relative p parent child).
Proof.
  rewrite <- regex_test_hasParentSegment. unfold pathStartsWith.
  destruct (Bool.eqb (isAbsolute p child) (isAbsolute p parent)) eqn:E; cbn [negb].
  - apply eqb_prop in E.
    destruct (Regex.test (PARENT_RELATIVE_REGEX p) (relative p parent child));
      cbn [negb]; split.
    + discriminate.
    + intros [_ H]. exfalso. apply H. reflexivity.
    + intros _. split; [exact E|discriminate].
    + reflexivity.
  - split; [discriminate|]. intros [H _]. rewrite H, eqb_reflx in E. discriminate.
Qed.

End ParentSegment.

(** ** The settings store and the project-wide enablement *)

Section SettingsStore.
Variable st : Store.
Variable projectName : string.

Lemma enable_objectAssign (target : Settings) (src : Settings) :
  enable (objectAssign target (Some src))
  = match src !! "enable" with
    | Some (JBool b) => Some b
    | Some _ => None
    | None => enable target
    end.
Proof.
  unfold enable, objectAssign.
  destruct (src !! "enable") as [j|] eqn:E.
  - rewrite (lookup_union_Some_l src target _ _ E). reflexivity.
  - rewrite (lookup_union_r src target _ E). reflexivity.
Qed.

(** C4, as amended.  The project-wide enablement is the project's
    [workspace.enable] when that is [true] or [false]; otherwise the
    [enable] of the process-wide default settings when that is [true] or
    [false]; otherwise the project's [hasDenoConfig]; otherwise [false].
    So with [workspace.enable] and the default's [enable] both unset and
    [hasDenoConfig = true], it is [true]. *)
Theorem denoEnabled_layers :
  let s := projectSettings st !! projectName in
  denoEnabled st projectName
  = match s ?. workspace ?. enable with
    | Some b => b
    | None =>
        match enable (defaultSettings st) with
        | Some b => b
        | None =>
            match s ?. hasDenoConfig with
            | Some b => b
            | None => false
            end
        end
    end
  /\ (s ?. workspace ?. enable = None ->
      enable (defaultSettings st) = None ->
      s ?. hasDenoConfig = Some true ->
      denoEnabled st projectName = true).
Proof.
  cbn zeta. unfold denoEnabled, nullish.
  split.
  - destruct (projectSettings st !! projectName ?. workspace ?. enable);
      [reflexivity|].
    destruct (enable (defaultSettings st)); reflexivity.
  - intros -> -> ->. reflexivity.
Qed.

(** C8.  [updateSettings] replaces the project's entry in the store by
    the given settings and leaves the other projects' entries alone; it
    writes every field of [settings.workspace] into the default settings
    and leaves the default's other fields unchanged; and the project-wide
    enablement read right afterwards is the [workspace.enable] just
    written when that is [true] or [false], and the project's
    [hasDenoConfig] when [null] was written. *)
Theorem updateSettings_effect (s : PluginSettings) :
  let st' := updateSettings projectName s st in
  projectSettings st' !! projectName = Some s
  /\ (forall other, other <> projectName ->
      projectSettings st' !! other = projectSettings st !! other)
  /\ (forall ws, workspace s = Some ws ->
      forall field,
        (forall v, ws !! field = Some v -> defaultSettings st' !! field = Some v)
        /\ (ws !! field = None ->
            defaultSettings st' !! field = defaultSettings st !! field))
  /\ (workspace s = None -> defaultSettings st' = defaultSettings st)
  /\ (forall b, workspace s ?. enable = Some b -> denoEnabled st' projectName = b)
  /\ (forall ws, workspace s = Some ws -> ws !! "enable" = Some JNull ->
      denoEnabled st' projectName = nullish (hasDenoConfig s) false).
Proof.
  cbn zeta. unfold updateSettings. cbn [projectSettings defaultSettings].
  split; [apply lookup_insert_eq|].
  split; [intros other Hne; apply lookup_insert_ne; congruence|].
  split.
  { intros ws ->. intros field. cbn [objectAssign]. split.
    - intros v Hv. apply lookup_union_Some_l. exact Hv.
    - intros Hn. apply lookup_union_r. exact Hn. }
  split; [intros ->; reflexivity|].
  split.
  { intros b Hb. unfold denoEnabled. cbn [projectSettings defaultSettings].
    rewrite lookup_insert_eq. cbn [optional]. rewrite Hb. reflexivity. }
  intros ws Hws Hen. unfold denoEnabled. cbn [projectSettings defaultSettings].
  rewrite lookup_insert_eq. cbn [optional]. rewrite Hws. cbn [optional].
  rewrite enable_objectAssign. unfold enable at 1. rewrite Hen. reflexivity.
Qed.

End SettingsStore.

Lemma denoEnabled_layers_witness :
  denoEnabled (updateSettings "B" Example.settingsB initialStore) "B" = true.
Proof.
  apply (proj2 (denoEnabled_layers (updateSettings "B" Example.settingsB initialStore) "B"));
    vm_compute; reflexivity.
Defined.

(** C4, as stated, fails: the process-wide default stands between
    [workspace.enable] and [hasDenoConfig].  After B and then A are
    configured, B has no path filter and no per-document override, its
    [workspace.enable] is [null] and its [hasDenoConfig] is [true], and
    still Deno is not enabled for B, because A has left [enable = false] in
    the default settings. *)
Lemma denoEnabled_default_counterexample :
  let s := projectSettings Example.storeBA !! "B" in
  s = Some Example.settingsB
  /\ s ?. workspace ?. enable = None
  /\ s ?. hasDenoConfig = Some true
  /\ s ?. pathFilters = None
  /\ s ?. documents = None
  /\ SpecWords.isGloballyEnabled s = true
  /\ denoEnabled Example.storeBA "B" = false.
Proof. repeat split; vm_compute; reflexivity. Qed.

(** ** File-scoped enablement *)

Section FileEnablement.
Variable p : Process.
Variable st : Store.
Variable projectName : string.

Lemma find_first {A : Type} (pred : A -> bool) (before after : list A) (x : A) :
  Forall (fun y => pred y = false) before ->
  pred x = true ->
  List.find pred (before ++ x :: after) = Some x.
Proof.
  intros Hb Hx. induction Hb as [|y before Hy _ IH]; cbn.
  - rewrite Hx. reflexivity.
  - rewrite Hy. exact IH.
Qed.

Lemma find_no_match {A : Type} (pred : A -> bool) (l : list A) :
  Forall (fun y => pred y = false) l -> List.find pred l = None.
Proof.
  intros H. induction H as [|y l Hy _ IH]; cbn; [reflexivity|].
  rewrite Hy. exact IH.
Qed.

Lemma disabledLoop_returns (file : string) (paths : list string) :
  Exists (fun d => pathStartsWith p file d = true) paths ->
  disabledLoop p file paths = Some false.
Proof.
  induction paths as [|d paths IH]; intros H; [inversion H|].
  cbn. destruct (pathStartsWith p file d) eqn:E; [reflexivity|].
  apply IH. inversion H as [? ? Hd|? ? Hrest]; subst; [congruence|exact Hrest].
Qed.

Lemma disabledLoop_falls_through (file : string) (paths : list string) :
  Forall (fun d => pathStartsWith p file d = false) paths ->
  disabledLoop p file paths = None.
Proof.
  intros H. induction H as [|d paths Hd _ IH]; cbn; [reflexivity|].
  rewrite Hd. exact IH.
Qed.

Lemma some_Exists (file : string) (paths : list string) :
  existsb (fun path => pathStartsWith p file path) paths = true
  <-> Exists (fun e => pathStartsWith p file e = true) paths.
Proof.
  induction paths as [|e paths IH]; cbn.
  - split; [discriminate|intros H; inversion H].
  - destruct (pathStartsWith p file e) eqn:E; cbn.
    + split; [intros _; left; exact E|reflexivity].
    + rewrite IH. split; [intros H; right; exact H|].
      intros H. inversion H as [? ? He|? ? Hrest]; subst; [congruence|exact Hrest].
Qed.

(** Where the description of the ancestry test says "not an ancestor", so
    does the code. *)
Lemma pathStartsWith_not_ancestor (child parent : string) :
  SpecWords.isAncestor p child parent = false ->
  pathStartsWith p child parent = false.
Proof.
  unfold SpecWords.isAncestor. intros H.
  destruct (negb (Bool.eqb (isAbsolute p child) (isAbsolute p parent))) eqn:E.
  - unfold pathStartsWith. rewrite E. reflexivity.
  - apply pathStartsWith_parent_segment. apply negb_false_iff. exact H.
Qed.

(** Where it says "ancestor", the code agrees unless a name on the way down
    ends in two dots. *)
Lemma pathStartsWith_ancestor (child parent : string) :
  SpecWords.isAncestor p child parent = true ->
  Describe.plainDescent p child parent ->
  pathStartsWith p child parent = true.
Proof.
  intros Ha Hp. specialize (Hp Ha).
  unfold SpecWords.isAncestor in Ha. unfold pathStartsWith.
  destruct (negb (Bool.eqb (isAbsolute p child) (isAbsolute p parent)));
    [discriminate|].
  destruct (Regex.test (PARENT_RELATIVE_REGEX p) (relative p parent child)) eqn:E;
    [|reflexivity].
  exfalso. apply Hp. apply regex_test_hasParentSegment. exact E.
Qed.

Lemma pathStartsWith_isAncestor (child parent : string) :
  Describe.plainDescent p child parent ->
  pathStartsWith p child parent = SpecWords.isAncestor p child parent.
Proof.
  intros Hp. destruct (SpecWords.isAncestor p child parent) eqn:E.
  - apply pathStartsWith_ancestor; assumption.
  - apply pathStartsWith_not_ancestor; assumption.
Qed.

(** A relative path in which the regular expression finds nothing is a
    plain descent. *)
Lemma plainDescent_test (child parent : string) :
  Regex.test (PARENT_RELATIVE_REGEX p) (relative p parent child) = false ->
  Describe.plainDescent p child parent.
Proof.
  intros H _ Hseg. apply regex_test_hasParentSegment in Hseg. congruence.
Qed.

Lemma find_agree {A : Type} (f g : A -> bool) (l : list A) :
  Forall (fun x => f x = g x) l -> List.find f l = List.find g l.
Proof.
  intros H. induction H as [|x l Hx _ IH]; cbn; [reflexivity|].
  rewrite Hx, IH. reflexivity.
Qed.

Lemma existsb_agree {A : Type} (f g : A -> bool) (l : list A) :
  Forall (fun x => f x = g x) l -> existsb f l = existsb g l.
Proof.
  intros H. induction H as [|x l Hx _ IH]; cbn; [reflexivity|].
  rewrite Hx, IH. reflexivity.
Qed.

Lemma disabledLoop_existsb (file : string) (paths : list string) :
  disabledLoop p file paths
  = if existsb (fun d => pathStartsWith p file d) paths then Some false else None.
Proof.
  induction paths as [|d paths IH]; cbn; [reflexivity|].
  destruct (pathStartsWith p file d); [reflexivity|exact IH].
Qed.

Lemma existsb_Exists {A : Type} (f : A -> bool) (l : list A) :
  existsb f l = true <-> Exists (fun x => f x = true) l.
Proof.
  induction l as [|x l IH]; cbn.
  - split; [discriminate|intros H; inversion H].
  - rewrite orb_true_iff, IH. split.
    + intros [H|H]; [left|right]; exact H.
    + intros H. inversion H; subst; [left|right]; assumption.
Qed.

(** The last [return] of [#fileNameDenoEnabled], on the data it reads. *)
Lemma documentEnable_data (s : option PluginSettings) (file : string) :
  match s ?. documents with
  | Some docs =>
      match docs !! file with
      | Some d => documentEnable s file = Returns (enable (settings d))
      | None =>
          documentEnable s file
          = if isObjectPrototypeKey file then ThrowsTypeError else Returns None
      end
  | None => documentEnable s file = Returns None
  end.
Proof.
  unfold documentEnable. destruct (s ?. documents) as [docs|]; [|reflexivity].
  destruct (docs !! file); reflexivity.
Qed.

(** The worked example, for every store in which the project's only filter
    is [ExampleFilter.ws], on the POSIX and on the win32 process. *)
Lemma fileNameDenoEnabled_example_filter (s : PluginSettings) (q : Process) :
  projectSettings st !! projectName = Some s ->
  pathFilters s = Some [ExampleFilter.ws] ->
  q = Fixture.linux \/ q = Fixture.windows ->
  fileNameDenoEnabled q st projectName "/ws/src/gen/x.ts" = Returns false
  /\ fileNameDenoEnabled q st projectName "/ws/src/app.ts" = Returns true
  /\ fileNameDenoEnabled q st projectName "/ws/other.ts" = Returns false.
Proof.
  intros Hs Hf Hq. unfold fileNameDenoEnabled.
  rewrite Hs. cbn [optional]. rewrite Hf.
  destruct Hq as [->| ->]; repeat split; vm_compute; reflexivity.
Qed.

(** C3, as amended.  The resolution order of [#fileNameDenoEnabled], for
    the queried name as the code rewrites it first ([file]: on win32 every
    [/] becomes [\]), with ancestry as the description of the ancestry test
    has it.  [f] is the first filter, in the order of [pathFilters], whose
    workspace is an ancestor of the file; within it a disabled path above
    the file decides [false]; otherwise the enabled list, when there is
    one, decides by whether one of its paths is above the file (absence
    means disabled); otherwise, and when no filter is selected or there are
    no filters, the entry that [documents] holds for [file] decides through
    its [enable] when that is set, and the project-wide enablement decides
    when it is not or when there is no entry.  In all, the answer is that of
    the description at the rewritten name.

    Two kinds of names are left aside.  A path counts as above the file
    here only when no name on the way down from it ends in two dots
    ([Describe.plainDescent]), which is where the ancestry test keeps to its
    description; and when [documents] holds no entry for the file, the file
    name is not a member name of [Object.prototype].

    For the filter with workspace [/ws], enabled [/ws/src] and disabled
    [/ws/src/gen], the answers are [false] for [/ws/src/gen/x.ts], [true]
    for [/ws/src/app.ts] and [false] for [/ws/other.ts], on the POSIX
    process and on the win32 process alike. *)
Theorem fileNameDenoEnabled_resolution (fileName : string) :
  let file := normalizeFileName p fileName in
  let s := projectSettings st !! projectName in
  let answer := fileNameDenoEnabled p st projectName fileName in
  let global := denoEnabled st projectName in
  let above (path : string) := SpecWords.isAncestor p file path in
  let fallsThrough :=
    match s ?. documents with
    | Some docs =>
        match docs !! file with
        | Some d =>
            match enable (settings d) with
            | Some b => answer = Returns b
            | None => answer = Returns global
            end
        | None => isObjectPrototypeKey file = false -> answer = Returns global
        end
    | None => answer = Returns global
    end in
  (forall (before : list PathFilter.t) (f : PathFilter.t) (after : list PathFilter.t),
      s ?. pathFilters = Some (before ++ f :: after)%list ->
      Forall (fun g => above (PathFilter.workspace g) = false) before ->
      above (PathFilter.workspace f) = true ->
      Describe.plainDescent p file (PathFilter.workspace f) ->
      (Exists (fun d => above d = true /\ Describe.plainDescent p file d)
         (PathFilter.disabled f) ->
       answer = Returns false)
      /\ (Forall (fun d => above d = false) (PathFilter.disabled f) ->
          match PathFilter.enabled f with
          | Some paths =>
              Forall (Describe.plainDescent p file) paths ->
              exists b,
                answer = Returns b
                /\ (b = true <-> Exists (fun e => above e = true) paths)
          | None => fallsThrough
          end))
  /\ (forall filters,
        s ?. pathFilters = Some filters ->
        Forall (fun g => above (PathFilter.workspace g) = false) filters ->
        fallsThrough)
  /\ (s ?. pathFilters = None -> fallsThrough)
  /\ (Forall (Describe.plainDescent p file) (Describe.filterPaths s) ->
      (forall docs,
          s ?. documents = Some docs -> docs !! file = None ->
          isObjectPrototypeKey file = false) ->
      answer = Returns (SpecWords.isFileEnabled p s global file))
  /\ (s ?. pathFilters = Some [ExampleFilter.ws] ->
      forall q : Process,
        q = Fixture.linux \/ q = Fixture.windows ->
        fileNameDenoEnabled q st projectName "/ws/src/gen/x.ts" = Returns false
        /\ fileNameDenoEnabled q st projectName "/ws/src/app.ts" = Returns true
        /\ fileNameDenoEnabled q st projectName "/ws/other.ts" = Returns false)
  /\ file = (if isWin32 p then Js.replaceAll "/" "\" fileName else fileName).
Proof.
  cbn zeta.
  set (file := normalizeFileName p fileName).
  set (s := projectSettings st !! projectName).
  set (global := denoEnabled st projectName).
  assert (s ?. pathFilters = Some [ExampleFilter.ws] ->
          forall q : Process,
            q = Fixture.linux \/ q = Fixture.windows ->
            fileNameDenoEnabled q st projectName "/ws/src/gen/x.ts" = Returns false
            /\ fileNameDenoEnabled q st projectName "/ws/src/app.ts" = Returns true
            /\ fileNameDenoEnabled q st projectName "/ws/other.ts" = Returns false)
    as Hexample.
  { subst s. destruct (projectSettings st !! projectName) as [s0|] eqn:Hs; [|discriminate].
    cbn [optional]. intros Hf q Hq.
    exact (fileNameDenoEnabled_example_filter s0 q Hs Hf Hq). }
  (* the last [return], on the data *)
  assert (forall answer : Outcome bool,
            answer = match documentEnable s file with
                     | Returns override => Returns (nullish override global)
                     | ThrowsTypeError => ThrowsTypeError
                     end ->
            match s ?. documents with
            | Some docs =>
                match docs !! file with
                | Some d =>
                    match enable (settings d) with
                    | Some b => answer = Returns b
                    | None => answer = Returns global
                    end
                | None => isObjectPrototypeKey file = false -> answer = Returns global
                end
            | None => answer = Returns global
            end) as Hlast.
  { intros answer ->. pose proof (documentEnable_data s file) as Hd.
    destruct (s ?. documents) as [docs|]; [|rewrite Hd; reflexivity].
    destruct (docs !! file) as [d|].
    - rewrite Hd. destruct (enable (settings d)); reflexivity.
    - intros Hk. rewrite Hd, Hk. reflexivity. }
  split; [|split; [|split; [|split; [|split; [exact Hexample|reflexivity]]]]].
  - intros before f after Hs Hbefore Hf Hplain.
    assert (fileNameDenoEnabled p st projectName fileName
            = match disabledLoop p file (PathFilter.disabled f) with
              | Some b => Returns b
              | None =>
                  match PathFilter.enabled f with
                  | Some paths =>
                      Returns (existsb (fun path => pathStartsWith p file path) paths)
                  | None =>
                      match documentEnable s file with
                      | Returns override => Returns (nullish override global)
                      | ThrowsTypeError => ThrowsTypeError
                      end
                  end
              end) as Hanswer.
    { unfold fileNameDenoEnabled. fold file s global. rewrite Hs.
      rewrite (find_first _ before after f); [reflexivity| |].
      - eapply Forall_impl; [exact Hbefore|].
        intros g Hg. apply pathStartsWith_not_ancestor. exact Hg.
      - apply pathStartsWith_ancestor; assumption. }
    split.
    + intros Hd. rewrite Hanswer, (disabledLoop_returns file); [reflexivity|].
      eapply Exists_impl; [exact Hd|].
      intros d [Ha Hp]. apply pathStartsWith_ancestor; assumption.
    + intros Hd. rewrite Hanswer, (disabledLoop_falls_through file).
      2:{ eapply Forall_impl; [exact Hd|].
          intros d Ha. apply pathStartsWith_not_ancestor. exact Ha. }
      destruct (PathFilter.enabled f) as [paths|]; [|apply Hlast; reflexivity].
      intros Hpaths. eexists. split; [reflexivity|].
      rewrite (existsb_agree _ (fun e => SpecWords.isAncestor p file e)).
      * apply existsb_Exists.
      * eapply Forall_impl; [exact Hpaths|].
        intros e He. apply pathStartsWith_isAncestor. exact He.
  - intros filters Hs Hnone. apply Hlast.
    unfold fileNameDenoEnabled. fold file s global. rewrite Hs.
    rewrite find_no_match; [reflexivity|].
    eapply Forall_impl; [exact Hnone|].
    intros g Hg. apply pathStartsWith_not_ancestor. exact Hg.
  - intros Hs. apply Hlast.
    unfold fileNameDenoEnabled. fold file s global. rewrite Hs. reflexivity.
  - intros Hplain Hkeys.
    assert (match documentEnable s file with
            | Returns override => Returns (nullish override global)
            | ThrowsTypeError => ThrowsTypeError
            end
            = Returns (nullish (SpecWords.documentOverride s file) global)) as Hfall.
    { pose proof (documentEnable_data s file) as Hd.
      unfold SpecWords.documentOverride.
      destruct (s ?. documents) as [docs|]; [|rewrite Hd; reflexivity].
      destruct (docs !! file) as [d|] eqn:Hl; [rewrite Hd; reflexivity|].
      rewrite Hd, (Hkeys docs eq_refl Hl). reflexivity. }
    unfold fileNameDenoEnabled, SpecWords.isFileEnabled. fold file s global.
    rewrite Hfall. unfold Describe.filterPaths in Hplain.
    destruct (s ?. pathFilters) as [filters|]; [|reflexivity].
    assert (Forall (fun g => Forall (Describe.plainDescent p file)
                               (PathFilter.workspace g
                                :: (PathFilter.disabled g
                                    ++ nullish (PathFilter.enabled g) [])%list))
              filters) as Hall.
    { clear -Hplain. induction filters as [|g filters IH]; [constructor|].
      cbn [flat_map] in Hplain. apply Forall_app in Hplain as [Hg Hrest].
      constructor; [exact Hg|apply IH; exact Hrest]. }
    rewrite (find_agree _ (fun f => SpecWords.isAncestor p file (PathFilter.workspace f))).
    2:{ eapply Forall_impl; [exact Hall|].
        intros g Hg. apply pathStartsWith_isAncestor.
        apply Forall_cons in Hg as [Hw _]. exact Hw. }
    destruct (List.find _ filters) as [f|] eqn:Hfind; [|reflexivity].
    assert (Forall (Describe.plainDescent p file)
              (PathFilter.disabled f ++ nullish (PathFilter.enabled f) [])%list) as Hf.
    { apply List.find_some in Hfind as [Hin _].
      rewrite Forall_forall in Hall. apply list_elem_of_In in Hin.
      specialize (Hall f Hin). apply Forall_cons in Hall as [_ Hall]. exact Hall. }
    apply Forall_app in Hf as [Hdis Hen].
    rewrite disabledLoop_existsb.
    rewrite (existsb_agree _ (fun d => SpecWords.isAncestor p file d)).
    2:{ eapply Forall_impl; [exact Hdis|].
        intros d Hd. apply pathStartsWith_isAncestor. exact Hd. }
    destruct (existsb _ (PathFilter.disabled f)); [reflexivity|].
    destruct (PathFilter.enabled f) as [paths|]; [|reflexivity].
    cbn [nullish] in Hen.
    rewrite (existsb_agree _ (fun e => SpecWords.isAncestor p file e)); [reflexivity|].
    eapply Forall_impl; [exact Hen|].
    intros e He. apply pathStartsWith_isAncestor. exact He.
Qed.

End FileEnablement.

Lemma fileNameDenoEnabled_resolution_witness :
  (exists b,
      fileNameDenoEnabled Fixture.linux ExampleResolution.storeFilteredOn
        ExampleHost.name "/ws/src/app.ts" = Returns b
      /\ (b = true
          <-> Exists (fun e => SpecWords.isAncestor Fixture.linux "/ws/src/app.ts" e = true)
                ["/ws/src"]))
  /\ fileNameDenoEnabled Fixture.windows ExampleResolution.storeOverride
       ExampleHost.name "/ws/a.ts"
     = Returns (SpecWords.isFileEnabled Fixture.windows
                  (projectSettings ExampleResolution.storeOverride !! ExampleHost.name)
                  (denoEnabled ExampleResolution.storeOverride ExampleHost.name)
                  "\ws\a.ts").
Proof.
  split.
  - pose proof (proj1 (fileNameDenoEnabled_resolution Fixture.linux
                         ExampleResolution.storeFilteredOn ExampleHost.name
                         "/ws/src/app.ts")) as H.
    cbv zeta in H.
    destruct (H [] ExampleFilter.ws []) as [_ Henabled].
    + vm_compute; reflexivity.
    + constructor.
    + vm_compute; reflexivity.
    + apply plainDescent_test. vm_compute; reflexivity.
    + apply Henabled.
      * repeat constructor.
      * repeat constructor. apply plainDescent_test. vm_compute; reflexivity.
  - pose proof (proj1 (proj2 (proj2 (proj2
                  (fileNameDenoEnabled_resolution Fixture.windows
                     ExampleResolution.storeOverride ExampleHost.name "/ws/a.ts")))))
      as H.
    cbv zeta in H. apply H.
    + constructor.
    + intros docs Hdocs _. vm_compute; reflexivity.
Defined.

(** C3, as stated, fails for the per-document override.  On win32 the
    project holds an override that switches Deno on for [/ws/a.ts], under
    that very key, and no path filters; Deno is switched off project-wide.
    The description answers [true] for [/ws/a.ts]; the code looks the
    override up under the rewritten name [\ws\a.ts], finds none, and answers
    with the project-wide [false]. *)
Lemma fileNameDenoEnabled_override_counterexample :
  let s := projectSettings ExampleResolution.storeOverride !! ExampleHost.name in
  let global := denoEnabled ExampleResolution.storeOverride ExampleHost.name in
  s ?. pathFilters = None
  /\ SpecWords.documentOverride s "/ws/a.ts" = Some true
  /\ global = false
  /\ SpecWords.isFileEnabled Fixture.windows s global "/ws/a.ts" = true
  /\ normalizeFileName Fixture.windows "/ws/a.ts" = "\ws\a.ts"
  /\ fileNameDenoEnabled Fixture.windows ExampleResolution.storeOverride
       ExampleHost.name "/ws/a.ts" = Returns false.
Proof. repeat split; vm_compute; reflexivity. Qed.

(** The unanchored search of the ancestry test reaches the resolution.
    With the example filter and Deno switched on project-wide,
    [/ws/src/gen/lib../x.ts] lies below the workspace [/ws] and below the
    disabled path [/ws/src/gen], so that the description answers [false];
    the code finds two dots followed by [/] in the relative path, selects
    no filter and answers with the project-wide [true]. *)
Lemma fileNameDenoEnabled_two_dots :
  let s := projectSettings ExampleResolution.storeFilteredOn !! ExampleHost.name in
  let file := "/ws/src/gen/lib../x.ts" in
  SpecWords.isAncestor Fixture.linux file "/ws" = true
  /\ SpecWords.isAncestor Fixture.linux file "/ws/src/gen" = true
  /\ pathStartsWith Fixture.linux file "/ws" = false
  /\ SpecWords.isFileEnabled Fixture.linux s
       (denoEnabled ExampleResolution.storeFilteredOn ExampleHost.name) file = false
  /\ fileNameDenoEnabled Fixture.linux ExampleResolution.storeFilteredOn
       ExampleHost.name file = Returns true.
Proof. repeat split; vm_compute; reflexivity. Qed.

(** A file name that is a member name of [Object.prototype], in a project
    whose [documents] holds no entry of that name and where no path filter
    decides: reading the override throws. *)
Lemma fileNameDenoEnabled_inherited_key (p : Process) (st : Store)
    (projectName fileName : string) (s : PluginSettings)
    (docs : gmap string DocumentSettings) :
  projectSettings st !! projectName = Some s ->
  pathFilters s = None ->
  documents s = Some docs ->
  docs !! normalizeFileName p fileName = None ->
  isObjectPrototypeKey (normalizeFileName p fileName) = true ->
  fileNameDenoEnabled p st projectName fileName = ThrowsTypeError.
Proof.
  intros Hs Hf Hd Hl Hk. unfold fileNameDenoEnabled, documentEnable.
  rewrite Hs. cbn [optional]. rewrite Hf, Hd, Hl, Hk. reflexivity.
Qed.

(** The worked example on win32, where the queried names arrive with [/]
    and the filter paths are written with [/] as well. *)
Lemma fileNameDenoEnabled_example_filter_win32 :
  fileNameDenoEnabled Fixture.windows ExampleHost.storeFiltered ExampleHost.name
    "/ws/src/gen/x.ts" = Returns false
  /\ fileNameDenoEnabled Fixture.windows ExampleHost.storeFiltered ExampleHost.name
       "/ws/src/app.ts" = Returns true
  /\ fileNameDenoEnabled Fixture.windows ExampleHost.storeFiltered ExampleHost.name
       "/ws/other.ts" = Returns false.
Proof. repeat split; vm_compute; reflexivity. Qed.

(** ** Separators on win32 *)

Lemma replaceAll_absent (c d : ascii) (s : string) :
  c <> d -> Js.contains c (Js.replaceAll c d s) = false.
Proof.
  intros Hcd. induction s as [|x s IH]; cbn; [reflexivity|].
  rewrite IH, orb_false_r.
  destruct (Ascii.eqb_spec x c) as [->|Hx]; apply Ascii.eqb_neq; congruence.
Qed.

Lemma replaceAll_idempotent (c d : ascii) (s : string) :
  c <> d -> Js.replaceAll c d (Js.replaceAll c d s) = Js.replaceAll c d s.
Proof.
  intros Hcd. induction s as [|x s IH]; cbn; [reflexivity|].
  rewrite IH. f_equal.
  destruct (Ascii.eqb_spec x c) as [->|Hx].
  - assert (Ascii.eqb d c = false) as -> by (apply Ascii.eqb_neq; congruence).
    reflexivity.
  - assert (Ascii.eqb x c = false) as -> by (apply Ascii.eqb_neq; exact Hx).
    reflexivity.
Qed.

Lemma slash_not_backslash : ("/" : ascii) <> ("\" : ascii).
Proof. discriminate. Qed.

Section Win32.
Variable p : Process.
Variable st : Store.
Variable projectName : string.
Hypothesis Hwin : isWin32 p = true.

Lemma normalizeFileName_win32 (fileName : string) :
  normalizeFileName p fileName = Js.replaceAll "/" "\" fileName.
Proof. unfold normalizeFileName. rewrite Hwin. reflexivity. Qed.

Lemma documentEnable_posix_keys (s : PluginSettings) (fileName : string) :
  (forall docs key,
      documents s = Some docs -> is_Some (docs !! key) -> Js.contains "/" key = true) ->
  (is_Some (documents s) ->
   isObjectPrototypeKey (normalizeFileName p fileName) = false) ->
  documentEnable (Some s) (normalizeFileName p fileName) = Returns None.
Proof.
  intros Hkeys Hproto. unfold documentEnable. cbn [optional].
  destruct (documents s) as [docs|] eqn:Hd; [|reflexivity].
  destruct (docs !! normalizeFileName p fileName) as [d|] eqn:Hl;
    [|rewrite Hproto by eauto; reflexivity].
  exfalso.
  assert (Js.contains "/" (normalizeFileName p fileName) = true) as Hc
    by (apply (Hkeys docs); [reflexivity|rewrite Hl; eauto]).
  rewrite normalizeFileName_win32, replaceAll_absent in Hc
    by exact slash_not_backslash.
  discriminate.
Qed.

End Win32.

(** C10, as stated, fails for filter paths: on win32 the filter workspace
    [/ws], written with POSIX separators, is an ancestor of the queried
    [/ws/src/app.ts], and the filter's enabled list [/ws/src] decides
    [true] although Deno is not enabled project-wide. *)
Lemma win32_posix_filter_counterexample :
  isWin32 Fixture.windows = true
  /\ Js.contains "/" "/ws/src/app.ts" = true
  /\ Js.contains "/" (PathFilter.workspace ExampleFilter.ws) = true
  /\ pathStartsWith Fixture.windows
       (normalizeFileName Fixture.windows "/ws/src/app.ts")
       (PathFilter.workspace ExampleFilter.ws) = true
  /\ denoEnabled ExampleHost.storeFiltered ExampleHost.name = false
  /\ fileNameDenoEnabled Fixture.windows ExampleHost.storeFiltered ExampleHost.name
       "/ws/src/app.ts" = Returns true.
Proof. repeat split; vm_compute; reflexivity. Qed.

(** C10, as amended.  On win32 only the queried file name has its [/]
    replaced by [\]: the name compared contains no [/], and the answer is
    that for the rewritten name.  The keys of [documents] are looked up as
    provided, so a key containing [/] is never the key looked up, and when
    every key contains [/] and there are no path filters the answer is the
    project-wide enablement (where there is a [documents] object, for a
    rewritten name that is not a member name of [Object.prototype]).
    Filter paths go as provided to
    [pathStartsWith], whose [path.win32] functions accept both separators:
    the filter workspace [/ws] is an ancestor of the queried
    [/ws/src/app.ts]. *)
Theorem win32_separators (p : Process) (st : Store) (projectName fileName : string) :
  isWin32 p = true ->
  normalizeFileName p fileName = Js.replaceAll "/" "\" fileName
  /\ Js.contains "/" (normalizeFileName p fileName) = false
  /\ fileNameDenoEnabled p st projectName fileName
     = fileNameDenoEnabled p st projectName (Js.replaceAll "/" "\" fileName)
  /\ (forall key, Js.contains "/" key = true -> key <> normalizeFileName p fileName)
  /\ (forall s,
        projectSettings st !! projectName = Some s ->
        pathFilters s = None ->
        (forall docs key,
            documents s = Some docs -> is_Some (docs !! key) ->
            Js.contains "/" key = true) ->
        (is_Some (documents s) ->
         isObjectPrototypeKey (normalizeFileName p fileName) = false) ->
        fileNameDenoEnabled p st projectName fileName
        = Returns (denoEnabled st projectName))
  /\ pathStartsWith Fixture.windows
       (normalizeFileName Fixture.windows "/ws/src/app.ts") "/ws" = true.
Proof.
  intros Hwin.
  pose proof (normalizeFileName_win32 p Hwin) as Hn.
  split; [apply Hn|].
  split; [rewrite Hn; apply replaceAll_absent, slash_not_backslash|].
  split.
  { unfold fileNameDenoEnabled. rewrite !Hn.
    rewrite replaceAll_idempotent by exact slash_not_backslash. reflexivity. }
  split.
  { intros key Hkey ->. rewrite Hn, replaceAll_absent in Hkey
      by exact slash_not_backslash. discriminate. }
  split; [|vm_compute; reflexivity].
  intros s Hs Hpf Hkeys Hproto. unfold fileNameDenoEnabled.
  rewrite Hs. cbn [optional]. rewrite Hpf.
  rewrite (documentEnable_posix_keys p Hwin s fileName Hkeys Hproto). reflexivity.
Qed.

Lemma win32_separators_witness :
  isWin32 Fixture.windows = true
  /\ normalizeFileName Fixture.windows "/ws/src/app.ts" = "\ws\src\app.ts"
  /\ fileNameDenoEnabled Fixture.windows ExampleHost.storeFiltered ExampleHost.name
       "/ws/src/app.ts"
     = fileNameDenoEnabled Fixture.windows ExampleHost.storeFiltered ExampleHost.name
         "\ws\src\app.ts".
Proof.
  assert (isWin32 Fixture.windows = true) as H by reflexivity.
  pose proof (win32_separators Fixture.windows ExampleHost.storeFiltered
                ExampleHost.name "/ws/src/app.ts" H) as (H1 & _ & H3 & _).
  split; [exact H|]. split; [exact H1|exact H3].
Defined.

(** ** The interception factory *)

Lemma new_fresh (o : HeapObject) (w : World) :
  exists l,
    new o w = (VRef l, {| store := store w; heap := <[l := o]> (heap w);
                          trace := trace w; immediates := immediates w |})
    /\ heap w !! l = None.
Proof.
  exists (fresh (dom (heap w))). split; [reflexivity|].
  apply not_elem_of_dom. apply is_fresh.
Qed.

(** The answer of a wrapper whose neutral value is an array: a new, empty
    array, and nothing else changes. *)
Lemma freshEmptyReturn_array (v : Value) (w : World) :
  isArray (heap w) v = true ->
  exists l,
    freshEmptyReturn (ERValue v) w
    = (Normal (VRef l),
       {| store := store w; heap := <[l := HArray []]> (heap w);
          trace := trace w; immediates := immediates w |})
    /\ heap w !! l = None.
Proof.
  intros Ha. unfold freshEmptyReturn. rewrite Ha.
  destruct (new_fresh (HArray []) w) as (l & Hnew & Hl).
  exists l. rewrite Hnew. split; [reflexivity|exact Hl].
Qed.

Section Wrapped.
Variable p : Process.
Variable ls : LanguageService.
Variable this : Plugin.
Variable fn : string.
Variable fileNameArg : option nat.
Variable emptyReturn : EmptyReturn.

(** C1, as amended.  The polarity is that of the name [callIfDisabled]:
    the enablement resolved is Deno's (file-scoped through the declared
    file-name argument, project-wide when none is declared).  When it is
    [true] the wrapped operation answers with the neutral value and does
    not invoke the language service: the outcome is the same whatever the
    language service is, and for a neutral value that is neither an array nor
    a function the world only gains the log entry.  When it is [false] the
    wrapped operation invokes the original operation once, with exactly the
    arguments given, and its outcome is that call's outcome. *)
Theorem callIfDisabled_polarity (args : list Value) (w : World) :
  let logged := emit (EvLog (LogCall fn args)) w in
  let enablement :=
    match fileNameArg with
    | Some i =>
        match args !! i with
        | Some (VStr fileName) =>
            Some (fileNameDenoEnabled p (store w) (projectName this) fileName)
        | _ => None
        end
    | None => Some (Returns (denoEnabled (store w) (projectName this)))
    end in
  (enablement = Some (Returns true) ->
     callIfDisabled p ls this fn fileNameArg emptyReturn args w
     = Some (freshEmptyReturn emptyReturn logged)
     /\ (forall ls' : LanguageService,
           callIfDisabled p ls' this fn fileNameArg emptyReturn args w
           = callIfDisabled p ls this fn fileNameArg emptyReturn args w)
     /\ (forall v, emptyReturn = ERValue v -> isArray (heap w) v = false ->
           callIfDisabled p ls this fn fileNameArg emptyReturn args w
           = Some (Normal v, logged)))
  /\ (enablement = Some (Returns false) ->
        callIfDisabled p ls this fn fileNameArg emptyReturn args w
        = Some (ls fn args (emit (EvCall fn args) logged))).
Proof.
  cbn zeta.
  assert (forall ls' : LanguageService,
            callIfDisabled p ls' this fn fileNameArg emptyReturn args w
            = match resolveEnabled p this fileNameArg args (store w) with
              | Some (Returns true) =>
                  Some (freshEmptyReturn emptyReturn (emit (EvLog (LogCall fn args)) w))
              | Some (Returns false) =>
                  Some (ls' fn args
                          (emit (EvCall fn args) (emit (EvLog (LogCall fn args)) w)))
              | Some ThrowsTypeError =>
                  Some (throwTypeError (emit (EvLog (LogCall fn args)) w))
              | None => None
              end) as Hcall.
  { intros ls'. unfold callIfDisabled. cbn [emit store].
    destruct (resolveEnabled p this fileNameArg args (store w)) as [[[]|]|]; reflexivity. }
  unfold resolveEnabled in Hcall.
  split.
  - intros He. rewrite He in Hcall. split; [apply Hcall|].
    split; [intros ls'; rewrite !Hcall; reflexivity|].
    intros v -> Hv. rewrite Hcall. unfold freshEmptyReturn.
    cbn [emit heap]. rewrite Hv. reflexivity.
  - intros He. rewrite He in Hcall. apply Hcall.
Qed.

(** C7, as amended.  Two successive calls of a wrapped operation whose
    neutral value is an array, made while Deno is enabled for them, answer
    with two arrays that are new (not on the heap before, so neither is the
    array handed to [callIfDisabled]), distinct and empty; writing to the
    first does not change the second. *)
Theorem callIfDisabled_fresh_arrays (v : Value) (args1 args2 : list Value) (w : World) :
  emptyReturn = ERValue v ->
  isArray (heap w) v = true ->
  resolveEnabled p this fileNameArg args1 (store w) = Some (Returns true) ->
  resolveEnabled p this fileNameArg args2 (store w) = Some (Returns true) ->
  exists l1 l2 w1 w2,
    callIfDisabled p ls this fn fileNameArg emptyReturn args1 w
      = Some (Normal (VRef l1), w1)
    /\ callIfDisabled p ls this fn fileNameArg emptyReturn args2 w1
      = Some (Normal (VRef l2), w2)
    /\ l1 <> l2
    /\ heap w !! l1 = None /\ heap w !! l2 = None
    /\ v <> VRef l1 /\ v <> VRef l2
    /\ heap w2 !! l1 = Some (HArray []) /\ heap w2 !! l2 = Some (HArray [])
    /\ (forall o, <[l1 := o]> (heap w2) !! l2 = Some (HArray [])).
Proof.
  intros -> Hv H1 H2.
  unfold callIfDisabled. cbn [emit store]. rewrite H1.
  destruct (freshEmptyReturn_array v (emit (EvLog (LogCall fn args1)) w) Hv)
    as (l1 & E1 & F1).
  cbn [emit store heap trace immediates] in E1, F1.
  set (w1 := {| store := store w; heap := <[l1 := HArray []]> (heap w);
                trace := (trace w ++ [EvLog (LogCall fn args1)])%list;
                immediates := immediates w |}) in *.
  assert (isArray (heap w1) v = true) as Hv1.
  { unfold isArray in *. destruct v as [| | | | |l0]; try discriminate.
    cbn [w1 heap]. destruct (heap w !! l0) as [o|] eqn:E0; [|discriminate].
    rewrite lookup_insert_ne by congruence. rewrite E0. exact Hv. }
  destruct (freshEmptyReturn_array v (emit (EvLog (LogCall fn args2)) w1) Hv1)
    as (l2 & E2 & F2).
  cbn [emit store heap trace immediates w1] in E2, F2.
  assert (l1 <> l2) as Hne.
  { intros ->. rewrite lookup_insert_eq in F2. discriminate. }
  exists l1, l2, w1.
  eexists. cbn [emit]. rewrite E1. split; [reflexivity|].
  cbn [w1 store]. rewrite H2. cbn [w1 store heap trace immediates] in *.
  rewrite E2. split; [reflexivity|].
  split; [exact Hne|].
  split; [exact F1|].
  split; [rewrite lookup_insert_ne in F2 by exact Hne; exact F2|].
  split.
  { intros ->. unfold isArray in Hv. rewrite F1 in Hv. discriminate. }
  split.
  { intros ->. unfold isArray in Hv.
    rewrite lookup_insert_ne in F2 by exact Hne. rewrite F2 in Hv. discriminate. }
  cbn [heap].
  split; [rewrite lookup_insert_ne by congruence; apply lookup_insert_eq|].
  split; [apply lookup_insert_eq|].
  intros o. rewrite lookup_insert_ne by exact Hne. apply lookup_insert_eq.
Qed.

End Wrapped.

Lemma callIfDisabled_fresh_arrays_witness :
  exists l1 l2 w1 w2,
    ExampleHost.getSemanticDiagnostics ExampleHost.args ExampleHost.worldOn
      = Some (Normal (VRef l1), w1)
    /\ ExampleHost.getSemanticDiagnostics ExampleHost.args w1
      = Some (Normal (VRef l2), w2)
    /\ l1 <> l2
    /\ heap ExampleHost.worldOn !! l1 = None /\ heap ExampleHost.worldOn !! l2 = None
    /\ VRef 2%positive <> VRef l1 /\ VRef 2%positive <> VRef l2
    /\ heap w2 !! l1 = Some (HArray []) /\ heap w2 !! l2 = Some (HArray [])
    /\ (forall o, <[l1 := o]> (heap w2) !! l2 = Some (HArray [])).
Proof.
  apply (callIfDisabled_fresh_arrays Fixture.linux ExampleHost.ls ExampleHost.this
           "getSemanticDiagnostics" (Some 0%nat) (ERValue (VRef 2%positive))
           (VRef 2%positive) ExampleHost.args ExampleHost.args ExampleHost.worldOn);
    vm_compute; reflexivity.
Defined.

(** C1, as stated, fails in both directions.  With Deno switched off for
    the project the wrapped [getSemanticDiagnostics] invokes the language
    service and answers with its array, not with the neutral value; with
    Deno switched on it answers with a new empty array and the language
    service is not invoked. *)
Lemma callIfDisabled_counterexample :
  resolveEnabled Fixture.linux ExampleHost.this (Some 0%nat) ExampleHost.args
    (store ExampleHost.worldOff) = Some (Returns false)
  /\ (exists w',
        ExampleHost.getSemanticDiagnostics ExampleHost.args ExampleHost.worldOff
          = Some (Normal (VRef 1%positive), w')
        /\ trace w' = [EvLog (LogCall "getSemanticDiagnostics" ExampleHost.args);
                       EvCall "getSemanticDiagnostics" ExampleHost.args]
        /\ heap w' !! 1%positive = Some (HArray [VStr "diagnostic"]))
  /\ resolveEnabled Fixture.linux ExampleHost.this (Some 0%nat) ExampleHost.args
       (store ExampleHost.worldOn) = Some (Returns true)
  /\ (exists w',
        ExampleHost.getSemanticDiagnostics ExampleHost.args ExampleHost.worldOn
          = Some (Normal (VRef 3%positive), w')
        /\ trace w' = [EvLog (LogCall "getSemanticDiagnostics" ExampleHost.args)]
        /\ heap w' !! 3%positive = Some (HArray [])
        /\ heap ExampleHost.worldOn !! 3%positive = None).
Proof.
  split; [vm_compute; reflexivity|].
  split; [eexists; split; [vm_compute; reflexivity|split; vm_compute; reflexivity]|].
  split; [vm_compute; reflexivity|].
  eexists; split; [vm_compute; reflexivity|repeat split; vm_compute; reflexivity].
Qed.

(** C7, as stated, fails: while Deno is switched off the wrapped operation
    forwards to the language service, and two successive calls answer with
    whatever it answers, here twice the same array, which is not empty. *)
Lemma callIfDisabled_shared_counterexample :
  resolveEnabled Fixture.linux ExampleHost.this (Some 0%nat) ExampleHost.args
    (store ExampleHost.worldOff) = Some (Returns false)
  /\ isArray (heap ExampleHost.worldOff) (VRef 2%positive) = true
  /\ exists w2,
       ExampleHost.twice ExampleHost.getSemanticDiagnostics
         ExampleHost.args ExampleHost.args ExampleHost.worldOff
         = Some (Normal (VRef 1%positive), Normal (VRef 1%positive), w2)
       /\ heap w2 !! 1%positive = Some (HArray [VStr "diagnostic"]).
Proof.
  split; [vm_compute; reflexivity|].
  split; [vm_compute; reflexivity|].
  eexists; split; vm_compute; reflexivity.
Qed.

(** A [TypeError] thrown while the enablement is resolved passes through
    the wrapper: the call is logged, the language service is not invoked
    and no neutral value is answered. *)
Lemma callIfDisabled_throws (p : Process) (ls : LanguageService) (this : Plugin)
    (fn : string) (fileNameArg : option nat) (emptyReturn : EmptyReturn)
    (args : list Value) (w : World) :
  resolveEnabled p this fileNameArg args (store w) = Some ThrowsTypeError ->
  callIfDisabled p ls this fn fileNameArg emptyReturn args w
  = Some (throwTypeError (emit (EvLog (LogCall fn args)) w)).
Proof.
  intros H. unfold callIfDisabled. cbn [emit store]. rewrite H. reflexivity.
Qed.

Lemma callIfDisabled_throws_example :
  exists w',
    ExampleHost.getSemanticDiagnostics [VStr "constructor"]
      {| store := ExampleResolution.storeDocuments; heap := ExampleHost.heap0;
         trace := []; immediates := [] |}
    = Some (Throw (VRef 3%positive), w')
    /\ heap w' !! 3%positive = Some HTypeError
    /\ trace w' = [EvLog (LogCall "getSemanticDiagnostics" [VStr "constructor"])].
Proof. eexists. repeat split; vm_compute; reflexivity. Qed.

(** ** The project's error listings *)

Section ProjectErrors.
Variable this : Plugin.
Variable m : ProjectMethod.
Variable original : ProjectFn.

(** C2, as amended.  The replacements of [getGlobalProjectErrors] and
    [getAllProjectErrors] answer with a new empty array, without calling the
    original, whenever Deno is enabled project-wide, and call the original
    and answer with its outcome whenever it is not.  These replacements are
    what [create] installs on the project. *)
Theorem muteProjectErrors_polarity (w : World) :
  (denoEnabled (store w) (projectName this) = true ->
     exists l,
       muteProjectErrors this m original w
       = (Normal (VRef l),
          {| store := store w; heap := <[l := HArray []]> (heap w);
             trace := trace w; immediates := immediates w |})
       /\ heap w !! l = None)
  /\ (denoEnabled (store w) (projectName this) = false ->
        muteProjectErrors this m original w = original (emit (EvProjectCall m) w))
  /\ (forall p info w0,
        let created := fst (create p info w0) in
        let plugin0 := {| project := info_project info;
                          projectName := getProjectName (info_project info) |} in
        getGlobalProjectErrors (createdProject created)
        = muteProjectErrors plugin0 GetGlobalProjectErrors
            (getGlobalProjectErrors (info_project info))
        /\ getAllProjectErrors (createdProject created)
           = muteProjectErrors plugin0 GetAllProjectErrors
               (getAllProjectErrors (info_project info))).
Proof.
  unfold muteProjectErrors. split; [|split].
  - intros ->. destruct (new_fresh (HArray []) w) as (l & Hnew & Hl).
    exists l. rewrite Hnew. split; [reflexivity|exact Hl].
  - intros ->. reflexivity.
  - intros p info w0. cbn zeta. unfold create.
    destruct (declareWrapped _ _ _ _ _) as [wrapped w1].
    split; reflexivity.
Qed.

End ProjectErrors.

(** C2, as stated, fails in both directions: with Deno switched off the
    replacement calls the original listing and answers with its array of
    one diagnostic; with Deno switched on it answers with a new empty array
    and the original is not called. *)
Lemma muteProjectErrors_counterexample :
  denoEnabled (store ExampleHost.worldOff) ExampleHost.name = false
  /\ (exists w',
        muteProjectErrors ExampleHost.this GetGlobalProjectErrors
          (getGlobalProjectErrors ExampleHost.project0) ExampleHost.worldOff
        = (Normal (VRef 1%positive), w')
        /\ trace w' = [EvProjectCall GetGlobalProjectErrors]
        /\ heap w' !! 1%positive = Some (HArray [VStr "diagnostic"]))
  /\ denoEnabled (store ExampleHost.worldOn) ExampleHost.name = true
  /\ (exists w',
        muteProjectErrors ExampleHost.this GetAllProjectErrors
          (getAllProjectErrors ExampleHost.project0) ExampleHost.worldOn
        = (Normal (VRef 3%positive), w')
        /\ trace w' = []
        /\ heap w' !! 3%positive = Some (HArray []))
  /\ heap ExampleHost.worldOn !! 3%positive = None.
Proof.
  split; [vm_compute; reflexivity|].
  split; [eexists; split; [vm_compute; reflexivity|split; vm_compute; reflexivity]|].
  split; [vm_compute; reflexivity|].
  split; [eexists; split; [vm_compute; reflexivity|split; vm_compute; reflexivity]|].
  vm_compute; reflexivity.
Qed.

(** ** Configuration updates *)

(** C9.  [onConfigurationChanged] leaves the store that [updateSettings]
    leaves, and adds to the trace its log entry and exactly one request to
    refresh the project's diagnostics, whatever the settings are; when they
    are the settings already stored, the request is made all the same. *)
Theorem onConfigurationChanged_effect (this : Plugin) (s : PluginSettings) (w : World) :
  let w' := onConfigurationChanged this s w in
  let projectName := getProjectName (project this) in
  store w' = updateSettings projectName s (store w)
  /\ trace w' = (trace w ++ [EvLog (LogConfigurationChanged s);
                            EvRefreshDiagnostics projectName])%list
  /\ SpecWords.countRefresh (trace w') = S (SpecWords.countRefresh (trace w))
  /\ heap w' = heap w
  /\ immediates w' = immediates w
  /\ (projectSettings (store w) !! projectName = Some s ->
      projectSettings (store w') = projectSettings (store w)
      /\ SpecWords.countRefresh (trace w') = S (SpecWords.countRefresh (trace w))).
Proof.
  cbn zeta. unfold onConfigurationChanged, refreshDiagnostics, emit, setStore.
  cbn [store heap trace immediates].
  assert (forall l : list Event,
            SpecWords.countRefresh (l ++ [EvLog (LogConfigurationChanged s);
                                EvRefreshDiagnostics (getProjectName (project this))])
            = S (SpecWords.countRefresh l)) as Hcount.
  { intros l. unfold SpecWords.countRefresh.
    rewrite List.filter_app, List.length_app. cbn. lia. }
  split; [reflexivity|].
  split; [rewrite <- app_assoc; reflexivity|].
  rewrite <- app_assoc. cbn [app].
  split; [apply Hcount|].
  split; [reflexivity|].
  split; [reflexivity|].
  intros Hs. split; [|apply Hcount].
  unfold updateSettings. cbn [projectSettings].
  apply insert_id. exact Hs.
Qed.

(** ** Creation *)

Section Create.
Variable p : Process.
Variable ls : LanguageService.
Variable this : Plugin.

Lemma new_frame (o : HeapObject) (w : World) :
  store (snd (new o w)) = store w
  /\ trace (snd (new o w)) = trace w
  /\ immediates (snd (new o w)) = immediates w.
Proof. repeat split. Qed.

Lemma evalNeutral_frame (n : Neutral) (w : World) :
  store (snd (evalNeutral n w)) = store w
  /\ trace (snd (evalNeutral n w)) = trace w
  /\ immediates (snd (evalNeutral n w)) = immediates w.
Proof. destruct n; repeat split. Qed.

(** Declaring the wrappers only allocates their array literals. *)
Lemma declareWrapped_frame (table : list (string * option nat * Neutral)) (w : World) :
  store (snd (declareWrapped p ls this table w)) = store w
  /\ trace (snd (declareWrapped p ls this table w)) = trace w
  /\ immediates (snd (declareWrapped p ls this table w)) = immediates w.
Proof.
  revert w. induction table as [|[[fn fileNameArg] n] rest IH]; intros w.
  - repeat split.
  - cbn [declareWrapped].
    destruct (evalNeutral_frame n w) as (Hs & Ht & Hi).
    destruct (evalNeutral n w) as [emptyReturn w1]. cbn [snd] in Hs, Ht, Hi.
    destruct (IH w1) as (Hs' & Ht' & Hi').
    destruct (declareWrapped p ls this rest w1) as [wrapped w2].
    cbn [snd] in *. repeat split; congruence.
Qed.

Lemma lookupWrapped_declared (table : list (string * option nat * Neutral))
    (w : World) (fn : string) (fileNameArg : option nat) (n : Neutral) :
  List.NoDup (List.map (fun e => fst (fst e)) table) ->
  List.In (fn, fileNameArg, n) table ->
  exists emptyReturn,
    lookupWrapped fn (fst (declareWrapped p ls this table w))
    = Some (callIfDisabled p ls this fn fileNameArg emptyReturn).
Proof.
  revert w. induction table as [|[[fn0 arg0] n0] rest IH]; intros w Hnd Hin.
  - destruct Hin.
  - cbn [declareWrapped].
    destruct (evalNeutral n0 w) as [emptyReturn w1].
    specialize (IH w1).
    destruct (declareWrapped p ls this rest w1) as [wrapped w2].
    cbn [fst lookupWrapped] in *.
    inversion Hnd as [|? ? Hnotin Hnd']; subst.
    destruct Hin as [Heq|Hin].
    + inversion Heq; subst. rewrite String.eqb_refl. eauto.
    + assert (fn0 <> fn) as Hne.
      { intros ->. apply Hnotin.
        exact (List.in_map (fun e : string * option nat * Neutral => fst (fst e))
                 rest (fn, fileNameArg, n) Hin). }
      apply String.eqb_neq in Hne. rewrite Hne. apply IH; assumption.
Qed.

Lemma lookupWrapped_undeclared (table : list (string * option nat * Neutral))
    (w : World) (fn : string) :
  ~ List.In fn (List.map (fun e => fst (fst e)) table) ->
  lookupWrapped fn (fst (declareWrapped p ls this table w)) = None.
Proof.
  revert w. induction table as [|[[fn0 arg0] n0] rest IH]; intros w Hnotin.
  - reflexivity.
  - cbn [declareWrapped].
    destruct (evalNeutral n0 w) as [emptyReturn w1].
    specialize (IH w1).
    destruct (declareWrapped p ls this rest w1) as [wrapped w2].
    cbn [fst lookupWrapped List.map List.In] in *.
    assert (fn0 <> fn) as Hne by (intros ->; apply Hnotin; left; reflexivity).
    apply String.eqb_neq in Hne. rewrite Hne.
    apply IH. intros Hin. apply Hnotin. right. exact Hin.
Qed.

End Create.

Lemma wrappedOperations_NoDup :
  List.NoDup (List.map (fun e => fst (fst e)) wrappedOperations).
Proof.
  assert (forall l : list string, bool_decide (NoDup l) = true -> List.NoDup l) as H.
  { intros l Hl. apply bool_decide_eq_true in Hl. apply NoDup_ListNoDup. exact Hl. }
  apply H. vm_compute. reflexivity.
Qed.

(** [create] stores the configuration at once and defers the refresh of
    diagnostics to [setImmediate]: nothing is requested of the host during
    the call, and the queued callback makes the one request when it
    runs. *)
Theorem create_effect (p : Process) (info : PluginCreateInfo) (w : World) :
  let name := getProjectName (info_project info) in
  let w' := snd (create p info w) in
  store w' = updateSettings name (config info) (store w)
  /\ trace w' = trace w
  /\ immediates w' = (immediates w ++ [TaskRefreshDiagnostics name])%list
  /\ projectName (plugin (fst (create p info w))) = name
  /\ (immediates w = [] ->
      trace (runImmediate w') = (trace w ++ [EvRefreshDiagnostics name])%list
      /\ immediates (runImmediate w') = []).
Proof.
  cbn zeta. unfold create.
  match goal with
  | |- context [declareWrapped ?a ?b ?c ?d ?e] =>
      pose proof (declareWrapped_frame a b c d e) as (Hs & Ht & Hi);
      destruct (declareWrapped a b c d e) as [wrapped w2]
  end.
  cbn [fst snd plugin projectName] in *.
  cbn [setStore setImmediate store trace immediates] in Hs, Ht, Hi.
  split; [exact Hs|]. split; [exact Ht|]. split; [exact Hi|].
  split; [reflexivity|].
  intros Hempty. unfold runImmediate. rewrite Hi, Hempty. cbn [app emit trace immediates].
  rewrite Ht. split; reflexivity.
Qed.

Lemma create_effect_witness :
  trace (snd (create Fixture.linux
           {| languageService := ExampleHost.ls;
              info_project := ExampleHost.project0;
              config := ExampleHost.settingsWith true |}
           ExampleHost.worldOn)) = [].
Proof.
  exact (proj1 (proj2 (create_effect Fixture.linux
           {| languageService := ExampleHost.ls;
              info_project := ExampleHost.project0;
              config := ExampleHost.settingsWith true |}
           ExampleHost.worldOn))).
Defined.

(** The language service that [create] returns: each operation of the
    table is the wrapper that [callIfDisabled] builds for its name and its
    file-name argument, and every other operation is the original one. *)
Theorem create_service (p : Process) (info : PluginCreateInfo) (w : World) :
  let created := fst (create p info w) in
  let this := {| project := info_project info;
                 projectName := getProjectName (info_project info) |} in
  (forall fn fileNameArg n,
      List.In (fn, fileNameArg, n) wrappedOperations ->
      exists emptyReturn,
        service created fn
        = callIfDisabled p (languageService info) this fn fileNameArg emptyReturn)
  /\ (forall fn,
        ~ List.In fn (List.map (fun e => fst (fst e)) wrappedOperations) ->
        forall args w0, service created fn args w0 = Some (languageService info fn args w0)).
Proof.
  cbn zeta. unfold create.
  match goal with
  | |- context [declareWrapped ?a ?b ?c ?d ?e] =>
      pose proof (fun fn i n => lookupWrapped_declared a b c d e fn i n
                                  wrappedOperations_NoDup) as Hin;
      pose proof (lookupWrapped_undeclared a b c d e) as Hout;
      destruct (declareWrapped a b c d e) as [wrapped w2]
  end.
  cbn [fst service] in *. split.
  - intros fn fileNameArg n H. destruct (Hin fn fileNameArg n H) as [er Her].
    exists er. rewrite Her. reflexivity.
  - intros fn H args w0. rewrite (Hout fn H). reflexivity.
Qed.

(** ** Runs of configuration messages *)

Lemma applyUpdates_cons (n : string) (s : PluginSettings)
    (rest : list (string * PluginSettings)) (st : Store) :
  Describe.applyUpdates ((n, s) :: rest) st
  = Describe.applyUpdates rest (updateSettings n s st).
Proof. reflexivity. Qed.

(** After any run of configuration messages the store holds, for each
    project, the settings of the latest message for that project, whole, and
    for a project no message was for, what it held before: messages for
    other projects never change a project's entry. *)
Theorem applyUpdates_projectSettings (updates : list (string * PluginSettings))
    (st : Store) (projectName : string) :
  projectSettings (Describe.applyUpdates updates st) !! projectName
  = match Describe.latestFor projectName updates with
    | Some s => Some s
    | None => projectSettings st !! projectName
    end.
Proof.
  revert st. induction updates as [|[n s] rest IH]; intros st; [reflexivity|].
  rewrite applyUpdates_cons, IH. cbn [Describe.latestFor].
  destruct (Describe.latestFor projectName rest); [reflexivity|].
  unfold updateSettings. cbn [projectSettings].
  destruct (String.eqb_spec n projectName) as [->|Hne].
  - apply lookup_insert_eq.
  - apply lookup_insert_ne. exact Hne.
Qed.

(** The default settings only accumulate: after any run of configuration
    messages each field holds the value of the latest message whose
    workspace settings have that field, whichever project the message was
    for, and otherwise the value it held before; no field is ever removed,
    so the fields of the initial default settings are always there. *)
Theorem applyUpdates_defaultSettings (updates : list (string * PluginSettings))
    (st : Store) (field : string) :
  defaultSettings (Describe.applyUpdates updates st) !! field
  = match Describe.latestField field updates with
    | Some v => Some v
    | None => defaultSettings st !! field
    end
  /\ (is_Some (defaultSettings st !! field) ->
      is_Some (defaultSettings (Describe.applyUpdates updates st) !! field))
  /\ (is_Some (initialDefaultSettings !! field) ->
      is_Some (defaultSettings (Describe.applyUpdates updates initialStore) !! field)).
Proof.
  assert (forall st0,
            defaultSettings (Describe.applyUpdates updates st0) !! field
            = match Describe.latestField field updates with
              | Some v => Some v
              | None => defaultSettings st0 !! field
              end) as Heq.
  { induction updates as [|[n s] rest IH]; intros st0; [reflexivity|].
    rewrite applyUpdates_cons, IH. cbn [Describe.latestField].
    destruct (Describe.latestField field rest); [reflexivity|].
    unfold updateSettings, objectAssign. cbn [defaultSettings].
    destruct (workspace s) as [ws|]; cbn [optional]; [|reflexivity].
    destruct (ws !! field) as [v|] eqn:E.
    - apply lookup_union_Some_l. exact E.
    - apply lookup_union_r. exact E. }
  split; [apply Heq|].
  split; intros H; rewrite Heq;
    destruct (Describe.latestField field updates); eauto.
Qed.

(** ** One project's settings reaching another *)

(** Configuring project [a] with [workspace.enable] set to [v] decides the
    project-wide enablement of every other project [b] whose own
    [workspace.enable] is unset, a project the store does not know
    included, whatever [b]'s [hasDenoConfig] says. *)
Theorem denoEnabled_follows_other_project (st : Store) (a b : string)
    (sa : PluginSettings) (v : bool) :
  a <> b ->
  (projectSettings st !! b) ?. workspace ?. enable = None ->
  workspace sa ?. enable = Some v ->
  denoEnabled (updateSettings a sa st) b = v.
Proof.
  intros Hne Hb Ha. unfold denoEnabled, updateSettings.
  cbn [projectSettings defaultSettings].
  rewrite lookup_insert_ne by exact Hne. rewrite Hb.
  destruct (workspace sa) as [ws|]; [|discriminate]. cbn [optional] in Ha.
  rewrite enable_objectAssign. unfold enable in Ha.
  destruct (ws !! "enable") as [[]|]; try discriminate.
  inversion Ha; subst. reflexivity.
Qed.

Lemma denoEnabled_follows_other_project_witness :
  denoEnabled
    (updateSettings "A" Example.settingsA (updateSettings "B" Example.settingsB initialStore))
    "B" = false.
Proof.
  apply (denoEnabled_follows_other_project
           (updateSettings "B" Example.settingsB initialStore) "A" "B"
           Example.settingsA false);
    [discriminate | vm_compute; reflexivity | vm_compute; reflexivity].
Defined.

(** ** Replacement of a project's settings *)

Lemma denoEnabled_updateSettings (st : Store) (projectName : string)
    (s : PluginSettings) :
  denoEnabled (updateSettings projectName s st) projectName
  = nullish
      (match workspace s ?. enable with
       | Some b => Some b
       | None => enable (objectAssign (defaultSettings st) (workspace s))
       end)
      (nullish (hasDenoConfig s) false).
Proof.
  unfold denoEnabled, updateSettings. cbn [projectSettings defaultSettings].
  rewrite lookup_insert_eq. reflexivity.
Qed.

Lemma enable_objectAssign_congruence (d1 d2 : Settings) (ws : option Settings) :
  enable d1 = enable d2 ->
  enable (objectAssign d1 ws) = enable (objectAssign d2 ws).
Proof.
  intros H. destruct ws as [ws|]; [|exact H].
  rewrite !enable_objectAssign. destruct (ws !! "enable") as [[]|]; auto.
Qed.

(** Once a project's settings are updated, nothing of its earlier settings
    is consulted: the file-scoped and the project-wide enablement are the
    same from any two stores that agree on the default [enable], whatever
    path filters, per-document overrides or flags the project had before. *)
Theorem updateSettings_forgets_previous (p : Process) (st1 st2 : Store)
    (projectName : string) (s : PluginSettings) (fileName : string) :
  enable (defaultSettings st1) = enable (defaultSettings st2) ->
  denoEnabled (updateSettings projectName s st1) projectName
  = denoEnabled (updateSettings projectName s st2) projectName
  /\ fileNameDenoEnabled p (updateSettings projectName s st1) projectName fileName
     = fileNameDenoEnabled p (updateSettings projectName s st2) projectName fileName.
Proof.
  intros Hd.
  assert (denoEnabled (updateSettings projectName s st1) projectName
          = denoEnabled (updateSettings projectName s st2) projectName) as Hg.
  { rewrite !denoEnabled_updateSettings.
    rewrite (enable_objectAssign_congruence _ _ (workspace s) Hd). reflexivity. }
  split; [exact Hg|].
  unfold fileNameDenoEnabled. rewrite Hg.
  unfold updateSettings. cbn [projectSettings].
  rewrite !lookup_insert_eq. reflexivity.
Qed.

Lemma updateSettings_forgets_previous_witness :
  fileNameDenoEnabled Fixture.linux
    (updateSettings ExampleHost.name (ExampleHost.settingsWith true) initialStore)
    ExampleHost.name "/ws/other.ts"
  = fileNameDenoEnabled Fixture.linux
      (updateSettings ExampleHost.name (ExampleHost.settingsWith true)
         ExampleHost.storeFiltered)
      ExampleHost.name "/ws/other.ts".
Proof.
  apply (updateSettings_forgets_previous Fixture.linux initialStore
           ExampleHost.storeFiltered ExampleHost.name
           (ExampleHost.settingsWith true) "/ws/other.ts").
  vm_compute; reflexivity.
Defined.

(** ** What the first matching filter settles *)

Section FirstFilter.
Variable p : Process.

Lemma fileNameDenoEnabled_first_filter (st : Store) (projectName fileName : string)
    (before : list PathFilter.t) (f : PathFilter.t) (after : list PathFilter.t) :
  let file := normalizeFileName p fileName in
  (projectSettings st !! projectName) ?. pathFilters = Some (before ++ f :: after)%list ->
  Forall (fun g => pathStartsWith p file (PathFilter.workspace g) = false) before ->
  pathStartsWith p file (PathFilter.workspace f) = true ->
  fileNameDenoEnabled p st projectName fileName
  = match disabledLoop p file (PathFilter.disabled f) with
    | Some b => Returns b
    | None =>
        match PathFilter.enabled f with
        | Some paths => Returns (existsb (fun path => pathStartsWith p file path) paths)
        | None =>
            match documentEnable (projectSettings st !! projectName) file with
            | Returns override => Returns (nullish override (denoEnabled st projectName))
            | ThrowsTypeError => ThrowsTypeError
            end
        end
    end.
Proof.
  cbn zeta. intros Hs Hbefore Hf.
  unfold fileNameDenoEnabled.
  rewrite Hs, (find_first _ before after f Hbefore Hf). reflexivity.
Qed.

Lemma disabledLoop_false (file : string) (paths : list string) :
  nullish (disabledLoop p file paths) false = false.
Proof.
  induction paths as [|d paths IH]; cbn; [reflexivity|].
  destruct (pathStartsWith p file d); [reflexivity|exact IH].
Qed.

(** When the first filter that [pathStartsWith] accepts for the file (the
    first whose workspace it answers [true] for, given the file name as
    rewritten at the start of [#fileNameDenoEnabled]) has an enabled list,
    that filter alone decides: the answer is the same for any two projects,
    in any two stores, whose filters agree up to and including that one.
    Later filters, per-document overrides, [workspace.enable],
    [hasDenoConfig] and the default settings are not consulted. *)
Theorem first_filter_with_enabled_list_decides (st1 st2 : Store)
    (project1 project2 fileName : string)
    (before : list PathFilter.t) (f : PathFilter.t)
    (after1 after2 : list PathFilter.t) :
  let file := normalizeFileName p fileName in
  (projectSettings st1 !! project1) ?. pathFilters = Some (before ++ f :: after1)%list ->
  (projectSettings st2 !! project2) ?. pathFilters = Some (before ++ f :: after2)%list ->
  Forall (fun g => pathStartsWith p file (PathFilter.workspace g) = false) before ->
  pathStartsWith p file (PathFilter.workspace f) = true ->
  is_Some (PathFilter.enabled f) ->
  fileNameDenoEnabled p st1 project1 fileName
  = fileNameDenoEnabled p st2 project2 fileName.
Proof.
  cbn zeta. intros H1 H2 Hbefore Hf [paths He].
  rewrite (fileNameDenoEnabled_first_filter st1 project1 fileName before f after1
             H1 Hbefore Hf).
  rewrite (fileNameDenoEnabled_first_filter st2 project2 fileName before f after2
             H2 Hbefore Hf).
  rewrite He. reflexivity.
Qed.

(** When the first filter that [pathStartsWith] accepts for the file has
    an empty enabled list, the answer is [false]: an empty list is still a
    list, so nothing is on it, and neither a per-document override nor the
    project-wide enablement is asked. *)
Theorem empty_enabled_list_disables (st : Store) (projectName fileName : string)
    (before : list PathFilter.t) (f : PathFilter.t) (after : list PathFilter.t) :
  let file := normalizeFileName p fileName in
  (projectSettings st !! projectName) ?. pathFilters = Some (before ++ f :: after)%list ->
  Forall (fun g => pathStartsWith p file (PathFilter.workspace g) = false) before ->
  pathStartsWith p file (PathFilter.workspace f) = true ->
  PathFilter.enabled f = Some [] ->
  fileNameDenoEnabled p st projectName fileName = Returns false.
Proof.
  cbn zeta. intros Hs Hbefore Hf He.
  rewrite (fileNameDenoEnabled_first_filter st projectName fileName before f after
             Hs Hbefore Hf).
  rewrite He. cbn [existsb].
  pose proof (disabledLoop_false (normalizeFileName p fileName) (PathFilter.disabled f)) as H.
  destruct (disabledLoop p (normalizeFileName p fileName) (PathFilter.disabled f));
    [cbn [nullish] in H; rewrite H|]; reflexivity.
Qed.

End FirstFilter.

Lemma first_filter_with_enabled_list_decides_witness :
  fileNameDenoEnabled Fixture.linux ExampleHost.storeFiltered ExampleHost.name
    "/ws/other.ts"
  = fileNameDenoEnabled Fixture.linux ExampleEmptyList.storeTwoFilters
      "/other/tsconfig.json" "/ws/other.ts".
Proof.
  apply (first_filter_with_enabled_list_decides Fixture.linux
           ExampleHost.storeFiltered ExampleEmptyList.storeTwoFilters
           ExampleHost.name "/other/tsconfig.json" "/ws/other.ts"
           [] ExampleFilter.ws [] [ExampleEmptyList.filter]).
  - vm_compute; reflexivity.
  - vm_compute; reflexivity.
  - constructor.
  - vm_compute; reflexivity.
  - eexists; reflexivity.
Defined.

Lemma empty_enabled_list_disables_witness :
  SpecWords.documentOverride
    (projectSettings ExampleEmptyList.store !! ExampleHost.name) "/ws/a.ts" = Some true
  /\ denoEnabled ExampleEmptyList.store ExampleHost.name = true
  /\ fileNameDenoEnabled Fixture.linux ExampleEmptyList.store ExampleHost.name
       "/ws/a.ts" = Returns false.
Proof.
  split; [vm_compute; reflexivity|].
  split; [vm_compute; reflexivity|].
  apply (empty_enabled_list_disables Fixture.linux ExampleEmptyList.store
           ExampleHost.name "/ws/a.ts" [] ExampleEmptyList.filter []).
  - vm_compute; reflexivity.
  - constructor.
  - vm_compute; reflexivity.
  - reflexivity.
Defined.

(** ** Neutral answers *)

Lemma new_twice (o1 : HeapObject) (o2 : Value -> HeapObject) (w : World) :
  exists a l,
    (let '(v1, w1) := new o1 w in
     let '(v2, w2) := new (o2 v1) w1 in (v2, w2))
    = (VRef l,
       {| store := store w;
          heap := <[l := o2 (VRef a)]> (<[a := o1]> (heap w));
          trace := trace w; immediates := immediates w |})
    /\ l <> a /\ heap w !! l = None /\ heap w !! a = None.
Proof.
  destruct (new_fresh o1 w) as (a & Ea & Fa). rewrite Ea.
  match goal with
  | |- context [new (o2 (VRef a)) ?w1] =>
      destruct (new_fresh (o2 (VRef a)) w1) as (l & El & Fl); rewrite El
  end.
  cbn [store heap trace immediates] in *.
  exists a, l. split; [reflexivity|].
  assert (l <> a) as Hne by (intros ->; rewrite lookup_insert_eq in Fl; discriminate).
  split; [exact Hne|]. split; [|exact Fa].
  rewrite lookup_insert_ne in Fl by congruence. exact Fl.
Qed.

Lemma freshEmptyReturn_declared (n : Neutral) (emptyReturn : EmptyReturn) (w : World) :
  Describe.declaredNeutral n emptyReturn (heap w) ->
  exists v w',
    freshEmptyReturn emptyReturn w = (Normal v, w')
    /\ Describe.neutralShape n v (heap w) (heap w')
    /\ (forall l o, heap w !! l = Some o -> heap w' !! l = Some o)
    /\ store w' = store w /\ immediates w' = immediates w /\ trace w' = trace w.
Proof.
  destruct n; cbn [Describe.declaredNeutral Describe.neutralShape].
  - intros (l0 & -> & Hl0).
    assert (isArray (heap w) (VRef l0) = true) as Ha
      by (unfold isArray; rewrite Hl0; reflexivity).
    destruct (freshEmptyReturn_array (VRef l0) w Ha) as (l & E & F).
    rewrite E. eexists _, _. split; [reflexivity|]. cbn [store heap trace immediates].
    split; [exists l; split; [reflexivity|split; [exact F|apply lookup_insert_eq]]|].
    split; [|repeat split].
    intros l1 o H1. rewrite lookup_insert_ne by congruence. exact H1.
  - intros ->. exists VUndefined, w. cbn. repeat split. auto.
  - intros ->. unfold freshEmptyReturn, emptyClassifications.
    destruct (new_twice (HArray [])
                (fun spans => HObject [("spans", spans); ("endOfLineState", VNum 0)]) w)
      as (a & l & E & Hne & Fl & Fa).
    destruct (new (HArray []) w) as [v1 w1].
    destruct (new (HObject [("spans", v1); ("endOfLineState", VNum 0)]) w1) as [v2 w2].
    inversion E; subst. eexists _, _. split; [reflexivity|].
    cbn [store heap trace immediates].
    split.
    { exists l, a. repeat split; try assumption.
      - apply lookup_insert_eq.
      - rewrite lookup_insert_ne by exact Hne. apply lookup_insert_eq. }
    split; [|repeat split].
    intros l1 o H1. rewrite !lookup_insert_ne by congruence. exact H1.
  - intros ->. unfold freshEmptyReturn, emptyNavigationTree.
    destruct (new_twice (HArray [])
                (fun spans => HObject [("text", VStr EmptyString);
                                       ("kind", VStr EmptyString);
                                       ("kindModifiers", VStr EmptyString);
                                       ("spans", spans);
                                       ("nameSpan", VUndefined)]) w)
      as (a & l & E & Hne & Fl & Fa).
    destruct (new (HArray []) w) as [v1 w1].
    destruct (new (HObject [("text", VStr EmptyString); ("kind", VStr EmptyString);
                            ("kindModifiers", VStr EmptyString); ("spans", v1);
                            ("nameSpan", VUndefined)]) w1) as [v2 w2].
    inversion E; subst. eexists _, _. split; [reflexivity|].
    cbn [store heap trace immediates].
    split.
    { exists l, a. repeat split; try assumption.
      - apply lookup_insert_eq.
      - rewrite lookup_insert_ne by exact Hne. apply lookup_insert_eq. }
    split; [|repeat split].
    intros l1 o H1. rewrite !lookup_insert_ne by congruence. exact H1.
Qed.

(** A wrapped operation declared with one of the four neutral values of
    the table, called while Deno is enabled for it, answers with a value of
    the declared shape made of new objects only (an empty array, [undefined],
    an empty classification or an empty navigation tree, each with its own
    new [spans] array); it changes no object that was on the heap, leaves
    the settings and the pending callbacks alone, and adds to the trace its
    log entry and nothing else. *)
Theorem callIfDisabled_neutral_answer (p : Process) (ls : LanguageService)
    (this : Plugin) (fn : string) (fileNameArg : option nat) (n : Neutral)
    (emptyReturn : EmptyReturn) (args : list Value) (w : World) :
  Describe.declaredNeutral n emptyReturn (heap w) ->
  resolveEnabled p this fileNameArg args (store w) = Some (Returns true) ->
  exists v w',
    callIfDisabled p ls this fn fileNameArg emptyReturn args w = Some (Normal v, w')
    /\ Describe.neutralShape n v (heap w) (heap w')
    /\ (forall l o, heap w !! l = Some o -> heap w' !! l = Some o)
    /\ store w' = store w
    /\ immediates w' = immediates w
    /\ trace w' = (trace w ++ [EvLog (LogCall fn args)])%list.
Proof.
  intros Hd He. unfold callIfDisabled. cbn [emit store]. rewrite He.
  destruct (freshEmptyReturn_declared n emptyReturn
              (emit (EvLog (LogCall fn args)) w) Hd)
    as (v & w' & E & Hshape & Hframe & Hs & Hi & Ht).
  exists v, w'. cbn [emit] in E. rewrite E.
  cbn [emit store heap trace immediates] in *. auto 10.
Qed.

Lemma callIfDisabled_neutral_answer_witness :
  exists v w',
    ExampleHost.getSemanticDiagnostics ExampleHost.args ExampleHost.worldOn
      = Some (Normal v, w')
    /\ Describe.neutralShape EmptyArray v (heap ExampleHost.worldOn) (heap w')
    /\ (forall l o, heap ExampleHost.worldOn !! l = Some o -> heap w' !! l = Some o)
    /\ store w' = store ExampleHost.worldOn
    /\ immediates w' = immediates ExampleHost.worldOn
    /\ trace w' = (trace ExampleHost.worldOn
                   ++ [EvLog (LogCall "getSemanticDiagnostics" ExampleHost.args)])%list.
Proof.
  apply (callIfDisabled_neutral_answer Fixture.linux ExampleHost.ls ExampleHost.this
           "getSemanticDiagnostics" (Some 0%nat) EmptyArray (ERValue (VRef 2%positive))
           ExampleHost.args ExampleHost.worldOn).
  - exists 2%positive. split; [reflexivity|vm_compute; reflexivity].
  - vm_compute; reflexivity.
Defined.

(** ** From creation to the first call *)

Lemma evalNeutral_declared (n : Neutral) (w : World) :
  Describe.declaredNeutral n (fst (evalNeutral n w)) (heap (snd (evalNeutral n w)))
  /\ (forall l o, heap w !! l = Some o -> heap (snd (evalNeutral n w)) !! l = Some o).
Proof.
  destruct n; cbn [evalNeutral Describe.declaredNeutral fst snd]; try (split; auto; fail).
  destruct (new_fresh (HArray []) w) as (l & E & F). rewrite E.
  cbn [fst snd heap]. split.
  - exists l. split; [reflexivity|apply lookup_insert_eq].
  - intros l1 o H1. rewrite lookup_insert_ne by congruence. exact H1.
Qed.

Lemma declaredNeutral_mono (n : Neutral) (emptyReturn : EmptyReturn) (h h' : Heap) :
  (forall l o, h !! l = Some o -> h' !! l = Some o) ->
  Describe.declaredNeutral n emptyReturn h -> Describe.declaredNeutral n emptyReturn h'.
Proof.
  intros Hm. destruct n; cbn [Describe.declaredNeutral]; auto.
  intros (l & -> & Hl). exists l. split; [reflexivity|apply Hm; exact Hl].
Qed.

Section Wiring.
Variable p : Process.
Variable ls : LanguageService.
Variable this : Plugin.

Lemma declareWrapped_heap_mono (table : list (string * option nat * Neutral)) (w : World) :
  forall l o, heap w !! l = Some o ->
              heap (snd (declareWrapped p ls this table w)) !! l = Some o.
Proof.
  revert w. induction table as [|[[fn fileNameArg] n] rest IH]; intros w l o H.
  - exact H.
  - cbn [declareWrapped].
    pose proof (proj2 (evalNeutral_declared n w) l o H) as H1.
    destruct (evalNeutral n w) as [emptyReturn w1]. cbn [snd] in H1.
    specialize (IH w1 l o H1).
    destruct (declareWrapped p ls this rest w1) as [wrapped w2]. exact IH.
Qed.

Lemma declareWrapped_declared (table : list (string * option nat * Neutral))
    (w : World) (fn : string) (fileNameArg : option nat) (n : Neutral) :
  List.NoDup (List.map (fun e => fst (fst e)) table) ->
  List.In (fn, fileNameArg, n) table ->
  exists emptyReturn,
    lookupWrapped fn (fst (declareWrapped p ls this table w))
    = Some (callIfDisabled p ls this fn fileNameArg emptyReturn)
    /\ Describe.declaredNeutral n emptyReturn
         (heap (snd (declareWrapped p ls this table w))).
Proof.
  revert w. induction table as [|[[fn0 arg0] n0] rest IH]; intros w Hnd Hin.
  - destruct Hin.
  - cbn [declareWrapped].
    pose proof (proj1 (evalNeutral_declared n0 w)) as Hd0.
    destruct (evalNeutral n0 w) as [emptyReturn w1]. cbn [fst snd] in Hd0.
    specialize (IH w1).
    pose proof (declareWrapped_heap_mono rest w1) as Hmono.
    destruct (declareWrapped p ls this rest w1) as [wrapped w2].
    cbn [fst snd lookupWrapped] in *.
    inversion Hnd as [|? ? Hnotin Hnd']; subst.
    destruct Hin as [Heq|Hin].
    + inversion Heq; subst. rewrite String.eqb_refl.
      exists emptyReturn. split; [reflexivity|].
      exact (declaredNeutral_mono n emptyReturn _ _ Hmono Hd0).
    + assert (fn0 <> fn) as Hne.
      { intros ->. apply Hnotin.
        exact (List.in_map (fun e : string * option nat * Neutral => fst (fst e))
                 rest (fn, fileNameArg, n) Hin). }
      apply String.eqb_neq in Hne. rewrite Hne. apply IH; assumption.
Qed.

End Wiring.

(** The configuration handed to [create] is in force at the first call of
    every operation of the table.  When it enables Deno for the call, the
    operation answers with the neutral value declared for it, made of new
    objects, the language service is not invoked and the trace holds only
    the call's log entry: the refresh that [create] asked for is still
    pending.  When it does not, the call goes to the original operation of
    the language service with the same arguments. *)
Theorem create_then_call (p : Process) (info : PluginCreateInfo) (w : World)
    (fn : string) (fileNameArg : option nat) (n : Neutral) (args : list Value)
    (enabled : bool) :
  let name := getProjectName (info_project info) in
  let this := {| project := info_project info; projectName := name |} in
  let created := fst (create p info w) in
  let w1 := snd (create p info w) in
  List.In (fn, fileNameArg, n) wrappedOperations ->
  resolveEnabled p this fileNameArg args
    (updateSettings name (config info) (store w)) = Some (Returns enabled) ->
  if enabled then
    exists v w2,
      service created fn args w1 = Some (Normal v, w2)
      /\ Describe.neutralShape n v (heap w1) (heap w2)
      /\ store w2 = updateSettings name (config info) (store w)
      /\ trace w2 = (trace w ++ [EvLog (LogCall fn args)])%list
      /\ immediates w2 = (immediates w ++ [TaskRefreshDiagnostics name])%list
  else
    service created fn args w1
    = Some (languageService info fn args
              (emit (EvCall fn args) (emit (EvLog (LogCall fn args)) w1))).
Proof.
  cbn zeta. intros Hin He. unfold create.
  match goal with
  | |- context [declareWrapped ?a ?b ?c ?d ?e] =>
      pose proof (declareWrapped_declared a b c d e fn fileNameArg n
                    wrappedOperations_NoDup Hin) as (er & Hlook & Hdecl);
      pose proof (declareWrapped_frame a b c d e) as (Hs & Ht & Hi);
      destruct (declareWrapped a b c d e) as [wrapped w2]
  end.
  cbn [fst snd service] in *. rewrite Hlook.
  cbn [setStore setImmediate store trace immediates] in Hs, Ht, Hi.
  rewrite <- Hs in He.
  destruct enabled.
  - unfold callIfDisabled. cbn [emit store]. rewrite He.
    destruct (freshEmptyReturn_declared n er (emit (EvLog (LogCall fn args)) w2) Hdecl)
      as (v & w3 & E & Hshape & _ & Hs3 & Hi3 & Ht3).
    cbn [emit store heap trace immediates] in E, Hshape, Hs3, Hi3, Ht3.
    exists v, w3. rewrite E. split; [reflexivity|].
    split; [exact Hshape|].
    rewrite Hs3, Ht3, Hi3, Hs, Ht, Hi. auto.
  - unfold callIfDisabled. cbn [emit store]. rewrite He. reflexivity.
Qed.

Lemma create_then_call_witness :
  exists v w2,
    service (fst (create Fixture.linux
                    {| languageService := ExampleHost.ls;
                       info_project := ExampleHost.project0;
                       config := ExampleHost.settingsWith true |}
                    ExampleHost.worldOff))
      "commentSelection" ExampleHost.args
      (snd (create Fixture.linux
              {| languageService := ExampleHost.ls;
                 info_project := ExampleHost.project0;
                 config := ExampleHost.settingsWith true |}
              ExampleHost.worldOff))
    = Some (Normal v, w2)
    /\ trace w2 = [EvLog (LogCall "commentSelection" ExampleHost.args)].
Proof.
  destruct (create_then_call Fixture.linux
              {| languageService := ExampleHost.ls;
                 info_project := ExampleHost.project0;
                 config := ExampleHost.settingsWith true |}
              ExampleHost.worldOff "commentSelection" (Some 0%nat) EmptyArray
              ExampleHost.args true)
    as (v & w2 & E & _ & _ & Ht & _).
  - left; reflexivity.
  - vm_compute; reflexivity.
  - exists v, w2. split; [exact E|exact Ht].
Defined.

(** ** A configuration change and the next call *)

Lemma resolveEnabled_plain_settings (p : Process) (this : Plugin)
    (fileNameArg : option nat) (args : list Value) (st : Store)
    (s : PluginSettings) (b : bool) :
  workspace s ?. enable = Some b ->
  pathFilters s = None ->
  documents s = None ->
  is_Some (resolveEnabled p this fileNameArg args st) ->
  resolveEnabled p this fileNameArg args (updateSettings (projectName this) s st)
  = Some (Returns b).
Proof.
  intros He Hf Hd Hty.
  assert (denoEnabled (updateSettings (projectName this) s st) (projectName this) = b)
    as Hg.
  { rewrite denoEnabled_updateSettings, He. reflexivity. }
  unfold resolveEnabled in *.
  destruct fileNameArg as [i|]; [|rewrite Hg; reflexivity].
  destruct (args !! i) as [[| | | |fileName|]|]; try (destruct Hty; discriminate).
  unfold fileNameDenoEnabled. rewrite Hg.
  unfold updateSettings. cbn [projectSettings]. rewrite lookup_insert_eq.
  cbn [optional]. rewrite Hf. unfold documentEnable. cbn [optional].
  rewrite Hd. reflexivity.
Qed.

(** A configuration change is in force at the very next call.  After
    [onConfigurationChanged] with settings that set [workspace.enable] and
    carry neither path filters nor per-document overrides, a wrapped
    operation of the same project answers with its neutral value when
    [enable] is [true] and calls the language service when it is [false],
    whatever the store held before. *)
Theorem onConfigurationChanged_then_call (p : Process) (ls : LanguageService)
    (this : Plugin) (fn : string) (fileNameArg : option nat)
    (emptyReturn : EmptyReturn) (args : list Value) (s : PluginSettings)
    (w : World) (b : bool) :
  projectName this = getProjectName (project this) ->
  workspace s ?. enable = Some b ->
  pathFilters s = None ->
  documents s = None ->
  is_Some (resolveEnabled p this fileNameArg args (store w)) ->
  let w1 := onConfigurationChanged this s w in
  let logged := emit (EvLog (LogCall fn args)) w1 in
  callIfDisabled p ls this fn fileNameArg emptyReturn args w1
  = Some (if b then freshEmptyReturn emptyReturn logged
          else ls fn args (emit (EvCall fn args) logged)).
Proof.
  intros Hname He Hf Hd Hty. cbn zeta.
  unfold callIfDisabled, onConfigurationChanged, refreshDiagnostics.
  cbn [emit setStore store]. rewrite <- Hname.
  rewrite (resolveEnabled_plain_settings p this fileNameArg args (store w) s b
             He Hf Hd Hty).
  reflexivity.
Qed.

Lemma onConfigurationChanged_then_call_witness :
  ExampleHost.getSemanticDiagnostics ExampleHost.args
    (onConfigurationChanged ExampleHost.this (ExampleHost.settingsWith false)
       ExampleHost.worldOn)
  = Some (ExampleHost.ls "getSemanticDiagnostics" ExampleHost.args
            (emit (EvCall "getSemanticDiagnostics" ExampleHost.args)
               (emit (EvLog (LogCall "getSemanticDiagnostics" ExampleHost.args))
                  (onConfigurationChanged ExampleHost.this
                     (ExampleHost.settingsWith false) ExampleHost.worldOn)))).
Proof.
  apply (onConfigurationChanged_then_call Fixture.linux ExampleHost.ls ExampleHost.this
           "getSemanticDiagnostics" (Some 0%nat) (ERValue (VRef 2%positive))
           ExampleHost.args (ExampleHost.settingsWith false) ExampleHost.worldOn false).
  - reflexivity.
  - vm_compute; reflexivity.
  - reflexivity.
  - reflexivity.
  - eexists; vm_compute; reflexivity.
Defined.

(** ** Ordinary absolute paths on POSIX *)

Import PosixPaths.

Lemma append_nil_l (b : string) : EmptyString +:+ b = b.
Proof. reflexivity. Qed.

Lemma append_cons (c : ascii) (a b : string) : String c a +:+ b = String c (a +:+ b).
Proof. reflexivity. Qed.

Lemma append_nil_r (b : string) : b +:+ EmptyString = b.
Proof. induction b as [|c b IH]; [reflexivity|]. rewrite append_cons, IH. reflexivity. Qed.

Lemma append_assoc (a b c : string) : (a +:+ b) +:+ c = a +:+ (b +:+ c).
Proof. induction a as [|x a IH]; [reflexivity|]. rewrite !append_cons, IH. reflexivity. Qed.

Ltac str := rewrite ?append_nil_l, ?append_cons; simpl String.length; simpl String.get;
            simpl String.substring.

Lemma js_length_append (a b : string) : Js.length (a +:+ b) = Js.length a + Js.length b.
Proof.
  unfold Js.length. induction a as [|c a IH]; str; [lia|].
  rewrite !Nat2Z.inj_succ. lia.
Qed.

Lemma js_length_cons (c : ascii) (a : string) : Js.length (String c a) = 1 + Js.length a.
Proof. unfold Js.length. simpl. lia. Qed.

Lemma js_length_nonneg (a : string) : 0 <= Js.length a.
Proof. unfold Js.length. lia. Qed.

Lemma get_append_at (a b : string) (n : nat) :
  n = String.length a -> String.get n (a +:+ b) = String.get 0 b.
Proof.
  intros ->. induction a as [|c a IH]; str; [reflexivity|exact IH].
Qed.

Lemma charCodeAt_append (a b : string) (i : Z) :
  i = Js.length a -> Js.charCodeAt (a +:+ b) i = Js.charCodeAt b 0.
Proof.
  intros ->. unfold Js.charCodeAt, Js.length.
  destruct (Z.ltb_spec (Z.of_nat (String.length a)) 0); [lia|].
  rewrite Nat2Z.id. cbn. apply get_append_at. reflexivity.
Qed.

Lemma charCodeAt_append_cons (a : string) (c : ascii) (b : string) (i : Z) :
  i = Js.length a -> Js.charCodeAt (a +:+ String c b) i = Some c.
Proof. intros H. rewrite (charCodeAt_append a _ i H). reflexivity. Qed.

Lemma charCodeAt_end (a : string) (i : Z) :
  i = Js.length a -> Js.charCodeAt a i = None.
Proof.
  intros ->. unfold Js.charCodeAt, Js.length.
  destruct (Z.ltb_spec (Z.of_nat (String.length a)) 0); [reflexivity|].
  rewrite Nat2Z.id. clear. induction a as [|c a IH]; str; [reflexivity|exact IH].
Qed.

Lemma substring_all (n : nat) (s : string) :
  n = String.length s -> String.substring 0 n s = s.
Proof.
  intros ->. induction s as [|c s IH]; simpl; [reflexivity|]. rewrite IH. reflexivity.
Qed.

Lemma substring_prefix (a b : string) :
  String.substring 0 (String.length a) (a +:+ b) = a.
Proof.
  induction a as [|c a IH]; str.
  - destruct b; reflexivity.
  - rewrite IH. reflexivity.
Qed.

Lemma substring_skip (a b : string) (m : nat) :
  String.substring (String.length a) m (a +:+ b) = String.substring 0 m b.
Proof.
  induction a as [|c a IH]; str; [reflexivity|exact IH].
Qed.

(** [s.slice(len a, len a + len b)] of [a + b + c] is [b]. *)
Lemma slice_middle (a b c : string) (i j : Z) :
  i = Js.length a -> j = Js.length a + Js.length b ->
  Js.slice (a +:+ b +:+ c) i j = b.
Proof.
  intros -> ->. unfold Js.slice.
  rewrite !js_length_append.
  pose proof (js_length_nonneg a). pose proof (js_length_nonneg b).
  pose proof (js_length_nonneg c).
  rewrite (Z.max_r 0 (Js.length a)) by lia.
  rewrite (Z.max_r 0 (Js.length a + Js.length b)) by lia.
  rewrite Z.min_r by lia.
  destruct (Z.leb_spec (Js.length a + Js.length b) (Js.length a)) as [Hle|Hlt].
  - assert (Js.length b = 0) as Hb by lia.
    unfold Js.length in Hb. destruct b; [reflexivity|simpl in Hb; lia].
  - replace (Js.length a + Js.length b - Js.length a) with (Js.length b) by lia.
    unfold Js.length. rewrite !Nat2Z.id.
    rewrite substring_skip. apply substring_prefix.
Qed.

Lemma sliceFrom_append (a b : string) (i : Z) :
  i = Js.length a -> Js.sliceFrom (a +:+ b) i = b.
Proof.
  intros ->. unfold Js.sliceFrom.
  pose proof (slice_middle a b EmptyString (Js.length a) (Js.length a + Js.length b)
                eq_refl eq_refl) as H.
  rewrite append_nil_r in H. rewrite js_length_append. exact H.
Qed.

Lemma normalizeBody_char (path : string) (a : bool) (i : Z) (c : ascii) (st : NormState) :
  isPosixPathSeparator c = false ->
  normalizeBody path a CHAR_FORWARD_SLASH isPosixPathSeparator i (withCode c st)
  = scanChar c st.
Proof.
  intros Hc. unfold normalizeBody, withCode, scanChar. cbn [code res dots lastSlash lastSegmentLength].
  rewrite Hc. destruct (Ascii.eqb c CHAR_DOT && negb (dots st =? -1)); reflexivity.
Qed.

Lemma normalizeLoop_step_char (path : string) (a : bool) (fuel : nat) (i : Z)
    (c : ascii) (st : NormState) :
  Js.charCodeAt path i = Some c ->
  i <= Js.length path ->
  isPosixPathSeparator c = false ->
  normalizeLoop path a CHAR_FORWARD_SLASH isPosixPathSeparator (S fuel) i st
  = normalizeLoop path a CHAR_FORWARD_SLASH isPosixPathSeparator fuel (i + 1) (scanChar c st).
Proof.
  intros Hget Hi Hc. cbn [normalizeLoop].
  destruct (Z.leb_spec i (Js.length path)); [|lia].
  rewrite Hget. fold (withCode c st). rewrite normalizeBody_char by exact Hc. reflexivity.
Qed.

Lemma noSlash_cons (c : ascii) (t : string) :
  noSlash (String c t) = true -> isPosixPathSeparator c = false /\ noSlash t = true.
Proof.
  unfold noSlash, isPosixPathSeparator, CHAR_FORWARD_SLASH. cbn [Js.contains].
  destruct (Ascii.eqb c "/"); cbn; [discriminate|auto].
Qed.

Lemma normalizeLoop_scan (path : string) (a : bool) (t : string) :
  forall (pre post : string) (fuel : nat) (i : Z) (st : NormState),
    path = pre +:+ t +:+ post ->
    i = Js.length pre ->
    noSlash t = true ->
    normalizeLoop path a CHAR_FORWARD_SLASH isPosixPathSeparator
      (String.length t + fuel) i st
    = normalizeLoop path a CHAR_FORWARD_SLASH isPosixPathSeparator
        fuel (i + Js.length t) (scan t st).
Proof.
  induction t as [|c t IH]; intros pre post fuel i st Hpath Hi Hns.
  - cbn [String.length scan plus]. unfold Js.length. cbn. rewrite Z.add_0_r. reflexivity.
  - destruct (noSlash_cons c t Hns) as [Hc Hns'].
    cbn [String.length plus scan].
    rewrite (normalizeLoop_step_char path a _ i c st).
    + rewrite (IH (pre +:+ String c EmptyString) post fuel (i + 1) (scanChar c st)).
      * rewrite js_length_cons. f_equal. lia.
      * rewrite Hpath, append_assoc. reflexivity.
      * rewrite js_length_append, js_length_cons. unfold Js.length at 2. cbn. lia.
      * exact Hns'.
    + rewrite Hpath, append_cons. apply charCodeAt_append_cons. exact Hi.
    + rewrite Hpath, Hi, !js_length_append.
      pose proof (js_length_nonneg (String c t)). pose proof (js_length_nonneg post). lia.
    + exact Hc.
Qed.

Lemma scan_frame (t : string) (st : NormState) :
  res (scan t st) = res st
  /\ lastSegmentLength (scan t st) = lastSegmentLength st
  /\ lastSlash (scan t st) = lastSlash st.
Proof.
  revert st. induction t as [|c t IH]; intros st; [auto|].
  cbn [scan]. destruct (IH (scanChar c st)) as (H1 & H2 & H3).
  rewrite H1, H2, H3. auto.
Qed.

Lemma scan_dots_lost (t : string) (st : NormState) :
  dots st = -1 -> t <> EmptyString \/ True -> dots (scan t st) = -1.
Proof.
  revert st. induction t as [|c t IH]; intros st Hd _; [exact Hd|].
  cbn [scan]. apply IH; [|auto].
  unfold scanChar. cbn [dots]. rewrite Hd. cbn. rewrite andb_false_r. reflexivity.
Qed.

Lemma scan_dots (t : string) (st : NormState) :
  0 <= dots st ->
  dots (scan t st) = if allDots t then dots st + Js.length t else -1.
Proof.
  revert st. induction t as [|c t IH]; intros st Hd.
  - cbn. unfold Js.length. cbn. lia.
  - cbn [scan allDots]. destruct (Ascii.eqb c CHAR_DOT) eqn:Ec; cbn [andb].
    + rewrite IH.
      * unfold scanChar. cbn [dots]. rewrite Ec.
        destruct (Z.eqb_spec (dots st) (-1)); [lia|]. cbn.
        rewrite js_length_cons. destruct (allDots t); lia.
      * unfold scanChar. cbn [dots]. rewrite Ec.
        destruct (Z.eqb_spec (dots st) (-1)); [lia|]. cbn. lia.
    + apply scan_dots_lost; [|auto].
      unfold scanChar. cbn [dots]. rewrite Ec. reflexivity.
Qed.

Lemma allDots_one (t : string) : allDots t = true -> Js.length t = 1 -> t = ".".
Proof.
  destruct t as [|c [|d t]]; unfold Js.length; cbn; try lia; intros H _.
  rewrite andb_true_r in H. apply Ascii.eqb_eq in H. subst. reflexivity.
Qed.

Lemma allDots_two (t : string) : allDots t = true -> Js.length t = 2 -> t = "..".
Proof.
  destruct t as [|c [|d [|e t]]]; unfold Js.length; cbn; try lia; intros H _.
  rewrite andb_true_r in H. apply andb_true_iff in H as [H1 H2].
  apply Ascii.eqb_eq in H1, H2. subst. reflexivity.
Qed.

Lemma plainSegment_facts (t : string) :
  plainSegment t = true ->
  t <> EmptyString /\ noSlash t = true /\ t <> "." /\ t <> "..".
Proof.
  unfold plainSegment. rewrite !andb_true_iff, !negb_true_iff, !String.eqb_neq. tauto.
Qed.

Lemma plain_dots (t : string) (st : NormState) :
  plainSegment t = true -> dots st = 0 ->
  dots (scan t st) <> 1 /\ dots (scan t st) <> 2.
Proof.
  intros Hp Hd. destruct (plainSegment_facts t Hp) as (_ & _ & H1 & H2).
  rewrite scan_dots by lia. rewrite Hd.
  destruct (allDots t) eqn:Ea; [|lia].
  split; intros H; [apply H1, allDots_one|apply H2, allDots_two]; auto; lia.
Qed.

Lemma length_pos (t : string) : t <> EmptyString -> 0 < Js.length t.
Proof. destruct t; [congruence|]. intros _. rewrite js_length_cons. pose proof (js_length_nonneg t). lia. Qed.

Lemma normalizeBody_close (path : string) (a : bool) (t : string) (st : NormState) (i : Z) :
  plainSegment t = true ->
  dots st = 0 ->
  i = lastSlash st + 1 + Js.length t ->
  Js.slice path (lastSlash st + 1) i = t ->
  normalizeBody path a CHAR_FORWARD_SLASH isPosixPathSeparator i
    (withCode CHAR_FORWARD_SLASH (scan t st))
  = closeSegment i (appendSeg (res st) t) (Js.length t) CHAR_FORWARD_SLASH.
Proof.
  intros Hp Hd Hi Hslice.
  destruct (plainSegment_facts t Hp) as (Hne & _ & _ & _).
  pose proof (length_pos t Hne) as Hlen.
  destruct (plain_dots t st Hp Hd) as [D1 D2].
  destruct (scan_frame t st) as (F1 & F2 & F3).
  unfold normalizeBody, withCode. cbn [code res dots lastSlash lastSegmentLength].
  change (isPosixPathSeparator CHAR_FORWARD_SLASH) with true. cbn match.
  rewrite F1, F3.
  destruct (Z.eqb_spec (lastSlash st) (i - 1)); [lia|].
  destruct (Z.eqb_spec (dots (scan t st)) 1); [contradiction|].
  destruct (Z.eqb_spec (dots (scan t st)) 2); [contradiction|].
  cbn [orb]. rewrite Hslice. unfold closeSegment, appendSeg, str1.
  f_equal. lia.
Qed.

Lemma js_length_trail_cons (t : string) (rest : list string) :
  Js.length (trail (t :: rest)) = Js.length t + 1 + Js.length (trail rest).
Proof.
  cbn [trail]. rewrite !js_length_append. unfold Js.length at 2. cbn. lia.
Qed.

Lemma length_trail_cons (t : string) (rest : list string) :
  String.length (trail (t :: rest)) = (String.length t + S (String.length (trail rest)))%nat.
Proof.
  cbn [trail]. induction t as [|c t IH]; [reflexivity|].
  rewrite append_cons. cbn [String.length plus]. rewrite IH. reflexivity.
Qed.

Lemma normalizeLoop_segments (path : string) (a : bool) (segs : list string) :
  forall (pre r : string) (l : Z) (fuel : nat),
    Forall (fun t => plainSegment t = true) segs ->
    path = pre +:+ trail segs ->
    normalizeLoop path a CHAR_FORWARD_SLASH isPosixPathSeparator
      (String.length (trail segs) + S fuel) (Js.length pre)
      {| res := r; lastSegmentLength := l; lastSlash := Js.length pre - 1;
         dots := 0; code := CHAR_FORWARD_SLASH |}
    = fold_left appendSeg segs r.
Proof.
  induction segs as [|t rest IH]; intros pre r l fuel Hplain Hpath.
  - cbn [trail String.length plus fold_left normalizeLoop].
    cbn [trail] in Hpath. rewrite append_nil_r in Hpath. subst path.
    rewrite Z.leb_refl, (charCodeAt_end pre _ eq_refl). reflexivity.
  - apply Forall_cons in Hplain as [Ht Hrest].
    destruct (plainSegment_facts t Ht) as (Hne & Hns & _ & _).
    rewrite length_trail_cons, <- Nat.add_assoc.
    cbn [trail] in Hpath.
    rewrite (normalizeLoop_scan path a t pre ("/" +:+ trail rest) _ (Js.length pre) _
               Hpath eq_refl Hns).
    cbn [plus].
    set (st0 := {| res := r; lastSegmentLength := l; lastSlash := Js.length pre - 1;
                   dots := 0; code := CHAR_FORWARD_SLASH |}).
    assert (Js.charCodeAt path (Js.length pre + Js.length t) = Some CHAR_FORWARD_SLASH)
      as Hget.
    { rewrite Hpath, <- append_assoc.
      apply charCodeAt_append_cons. rewrite js_length_append. reflexivity. }
    assert (Js.length pre + Js.length t <= Js.length path) as Hle.
    { rewrite Hpath, js_length_append, js_length_append.
      pose proof (js_length_nonneg ("/" +:+ trail rest)). lia. }
    cbn [normalizeLoop].
    destruct (Z.leb_spec (Js.length pre + Js.length t) (Js.length path)); [|lia].
    rewrite Hget. fold (withCode CHAR_FORWARD_SLASH (scan t st0)).
    rewrite (normalizeBody_close path a t st0 (Js.length pre + Js.length t) Ht).
    + unfold closeSegment.
      specialize (IH (pre +:+ t +:+ "/") (appendSeg (res st0) t) (Js.length t) fuel Hrest).
      rewrite !js_length_append in IH. change (Js.length "/") with 1 in IH.
      replace (Js.length pre + (Js.length t + 1) - 1)
        with (Js.length pre + Js.length t) in IH by lia.
      replace (Js.length pre + (Js.length t + 1))
        with (Js.length pre + Js.length t + 1) in IH by lia.
      apply IH. rewrite Hpath, !append_assoc. reflexivity.
    + reflexivity.
    + cbn [st0 lastSlash]. lia.
    + cbn [st0 lastSlash]. rewrite Hpath.
      apply slice_middle; lia.
Qed.

Lemma fold_appendSeg_nonempty (segs : list string) (r : string) :
  r <> EmptyString ->
  fold_left appendSeg segs r
  = match segs with [] => r | _ => r +:+ "/" +:+ joinSegments segs end.
Proof.
  revert r. induction segs as [|t rest IH]; intros r Hr; [reflexivity|].
  cbn [fold_left]. unfold appendSeg at 2.
  pose proof (length_pos r Hr) as Hl.
  destruct (Z.ltb_spec 0 (Js.length r)); [|lia].
  rewrite IH.
  - destruct rest as [|t' rest]; [reflexivity|].
    rewrite !append_assoc. reflexivity.
  - destruct r; [congruence|discriminate].
Qed.

Lemma fold_appendSeg_join (segs : list string) :
  Forall (fun t => plainSegment t = true) segs ->
  fold_left appendSeg segs EmptyString = joinSegments segs.
Proof.
  intros H. destruct H as [|t rest Ht Hrest]; [reflexivity|].
  destruct (plainSegment_facts t Ht) as (Hne & _).
  cbn [fold_left]. change (appendSeg EmptyString t) with t.
  rewrite (fold_appendSeg_nonempty rest t Hne).
  destruct rest; reflexivity.
Qed.

Lemma absolutePath_trail (segs : list string) :
  segs <> [] -> absolutePath segs +:+ "/" = "/" +:+ trail segs.
Proof.
  intros Hne. unfold absolutePath. rewrite append_assoc. f_equal.
  induction segs as [|t rest IH]; [congruence|].
  destruct rest as [|t' rest].
  - reflexivity.
  - change (joinSegments (t :: t' :: rest)) with (t +:+ "/" +:+ joinSegments (t' :: rest)).
    cbn [trail]. rewrite !append_assoc. rewrite IH by discriminate. reflexivity.
Qed.

Lemma normalizeString_plain (segs : list string) :
  segs <> [] ->
  Forall (fun t => plainSegment t = true) segs ->
  normalizeString ("/" +:+ trail segs) false CHAR_FORWARD_SLASH isPosixPathSeparator
  = joinSegments segs.
Proof.
  intros Hne Hplain. unfold normalizeString.
  rewrite append_cons, append_nil_l. cbn [String.length normalizeLoop].
  destruct (Z.leb_spec 0 (Js.length (String "/" (trail segs))));
    [|pose proof (js_length_nonneg (String "/" (trail segs))); lia].
  change (Js.charCodeAt (String "/" (trail segs)) 0) with (Some "/"%char).
  cbn match.
  change (normalizeBody _ _ _ _ 0 _)
    with {| res := EmptyString; lastSegmentLength := 0; lastSlash := 0; dots := 0;
            code := CHAR_FORWARD_SLASH |}.
  pose proof (normalizeLoop_segments (String "/" (trail segs)) false segs "/"
                EmptyString 0 0 Hplain eq_refl) as HN.
  replace (String.length (trail segs) + 1)%nat with (S (String.length (trail segs))) in HN by lia.
  change (Js.length "/") with 1 in HN. change (1 - 1) with 0 in HN.
  rewrite <- (fold_appendSeg_join segs Hplain). exact HN.
Qed.

Lemma posix_resolve_plain (p : Process) (segs : list string) :
  Forall (fun t => plainSegment t = true) segs ->
  posix.resolve p [absolutePath segs] = absolutePath segs.
Proof.
  intros Hplain. destruct segs as [|t rest]; [reflexivity|].
  unfold posix.resolve. cbn [rev app posix.resolveLoop].
  change (absolutePath (t :: rest)) with (String "/" (joinSegments (t :: rest))).
  rewrite js_length_cons.
  pose proof (js_length_nonneg (joinSegments (t :: rest))).
  destruct (Z.eqb_spec (1 + Js.length (joinSegments (t :: rest))) 0); [lia|].
  change (Js.charIs (String "/" (joinSegments (t :: rest))) 0 CHAR_FORWARD_SLASH) with true.
  cbn [posix.resolveLoop negb].
  rewrite append_nil_r.
  change (String "/" (joinSegments (t :: rest))) with (absolutePath (t :: rest)).
  rewrite absolutePath_trail by discriminate.
  rewrite (normalizeString_plain (t :: rest)) by (discriminate || exact Hplain).
  reflexivity.
Qed.

Lemma commonLoop_common (from to : string) (fromStart toStart : Z) (F : string) :
  forall (T preF preT : string) (i lcs length : Z) (fuel : nat),
    from = preF +:+ F -> to = preT +:+ T ->
    Js.length preF = fromStart + i -> Js.length preT = toStart + i ->
    length = i + Z.min (Js.length F) (Js.length T) ->
    fuel = Z.to_nat (length - i) ->
    posix.commonLoop CHAR_FORWARD_SLASH from to fromStart toStart fuel i length lcs
    = common F T i lcs.
Proof.
  induction F as [|a F IH]; intros T preF preT i lcs length fuel Hf Ht HlF HlT Hlen Hfuel.
  - assert (length = i) as -> by (change (Js.length EmptyString) with 0 in Hlen;
                                   pose proof (js_length_nonneg T); lia).
    rewrite Z.sub_diag in Hfuel. subst fuel. destruct T; reflexivity.
  - destruct T as [|b T].
    + assert (length = i) as -> by (change (Js.length EmptyString) with 0 in Hlen;
                                     pose proof (js_length_nonneg (String a F)); lia).
      rewrite Z.sub_diag in Hfuel. subst fuel. reflexivity.
    + rewrite !js_length_cons in Hlen.
      pose proof (js_length_nonneg F). pose proof (js_length_nonneg T).
      assert (i < length) as Hlt by lia.
      destruct fuel as [|fuel]; [lia|].
      cbn [posix.commonLoop common].
      destruct (Z.ltb_spec i length); [|lia].
      assert (Js.charCodeAt from (fromStart + i) = Some a) as ->
        by (rewrite Hf; apply charCodeAt_append_cons; lia).
      assert (Js.charCodeAt to (toStart + i) = Some b) as ->
        by (rewrite Ht; apply charCodeAt_append_cons; lia).
      destruct (Ascii.eqb a b) eqn:Eab; cbn [negb]; [|reflexivity].
      apply (IH T (preF +:+ String a EmptyString) (preT +:+ String b EmptyString)).
      * rewrite Hf, append_assoc. reflexivity.
      * rewrite Ht, append_assoc. reflexivity.
      * rewrite js_length_append. change (Js.length (String a EmptyString)) with 1. lia.
      * rewrite js_length_append. change (Js.length (String b EmptyString)) with 1. lia.
      * lia.
      * lia.
Qed.

Lemma common_spec (F : string) :
  forall (T preC : string) (lcs : Z),
    lcsOk (preC +:+ T) lcs (Js.length preC) ->
    exists C F2 T2 lcs',
      common F T (Js.length preC) lcs = (Js.length preC + Js.length C, lcs')
      /\ F = C +:+ F2 /\ T = C +:+ T2
      /\ (F2 = EmptyString \/ T2 = EmptyString
          \/ exists a b F3 T3, F2 = String a F3 /\ T2 = String b T3 /\ a <> b)
      /\ lcsOk (preC +:+ T) lcs' (Js.length preC + Js.length C).
Proof.
  induction F as [|a F IH]; intros T preC lcs Hok.
  - exists EmptyString, EmptyString, T, lcs. cbn [common].
    change (Js.length EmptyString) with 0. rewrite Z.add_0_r.
    destruct T; repeat split; auto.
  - destruct T as [|b T].
    + exists EmptyString, (String a F), EmptyString, lcs. cbn [common].
      change (Js.length EmptyString) with 0. rewrite Z.add_0_r.
      repeat split; auto.
    + cbn [common]. destruct (Ascii.eqb_spec a b) as [<-|Hab]; cbn [negb].
      * destruct (IH T (preC +:+ String a EmptyString)
                    (if Ascii.eqb a CHAR_FORWARD_SLASH then Js.length preC else lcs))
          as (C & F2 & T2 & lcs' & Hc & HF & HT & Hstop & Hok').
        { rewrite js_length_append. change (Js.length (String a EmptyString)) with 1.
          rewrite append_assoc. change (String a EmptyString +:+ T) with (String a T).
          destruct (Ascii.eqb_spec a CHAR_FORWARD_SLASH) as [->|Hne].
          - right. exists preC, T. split; [reflexivity|]. split; [reflexivity|lia].
          - destruct Hok as [->|(C1 & rest & H1 & H2 & H3)]; [left; reflexivity|].
            right. exists C1, rest. split; [exact H1|]. split; [exact H2|lia]. }
        rewrite js_length_append in Hc, Hok'.
        change (Js.length (String a EmptyString)) with 1 in Hc, Hok'.
        rewrite append_assoc in Hok'.
        change (String a EmptyString +:+ T) with (String a T) in Hok'.
        exists (String a C), F2, T2, lcs'.
        rewrite js_length_cons.
        replace (Js.length preC + (1 + Js.length C))
          with (Js.length preC + 1 + Js.length C) by lia.
        split; [exact Hc|]. subst F T. repeat split; auto.
      * exists EmptyString, (String a F), (String b T), lcs.
        change (Js.length EmptyString) with 0. rewrite Z.add_0_r.
        split; [reflexivity|]. split; [reflexivity|]. split; [reflexivity|].
        split; [|exact Hok]. right. right. eauto 10.
Qed.

Lemma isUp_step (out : string) :
  out = EmptyString \/ isUp out ->
  isUp (if Js.length out =? 0 then ".."
        else out +:+ str1 CHAR_FORWARD_SLASH +:+ "..").
Proof.
  intros [->|[k ->]].
  - exists 0%nat. reflexivity.
  - rewrite js_length_append. change (Js.length "..") with 2.
    pose proof (js_length_nonneg (ups k)).
    destruct (Z.eqb_spec (2 + Js.length (ups k)) 0); [lia|].
    exists (S k). cbn [ups]. rewrite !append_assoc. reflexivity.
Qed.

Lemma upLoop_shape (from : string) (fromEnd : Z) (fuel : nat) :
  forall (i : Z) (out : string),
    out = EmptyString \/ isUp out ->
    i <= fromEnd ->
    fromEnd - i < Z.of_nat fuel ->
    isUp (posix.upLoop CHAR_FORWARD_SLASH from fromEnd fuel i out).
Proof.
  induction fuel as [|fuel IH]; intros i out Hout Hi Hfuel; [lia|].
  cbn [posix.upLoop]. destruct (Z.leb_spec i fromEnd); [|lia].
  destruct (Z.eqb_spec i fromEnd) as [->|Hne]; cbn [orb].
  - pose proof (isUp_step out Hout) as Hup.
    destruct fuel as [|fuel]; [exact Hup|].
    cbn [posix.upLoop]. destruct (Z.leb_spec (fromEnd + 1) fromEnd); [lia|exact Hup].
  - apply IH; [|lia|lia].
    destruct (Js.charIs from i CHAR_FORWARD_SLASH); [right; apply isUp_step; exact Hout|exact Hout].
Qed.

Lemma ups_head (k : nat) :
  ups k = EmptyString \/ exists rest, ups k = String "/" rest.
Proof.
  induction k as [|k [IH|[rest IH]]]; [left; reflexivity| |]; right; cbn [ups]; rewrite IH.
  - exists "..". reflexivity.
  - exists (rest +:+ "/.."). reflexivity.
Qed.

Lemma isUp_begins (p : Process) (out suffix : string) :
  isWin32 p = false ->
  isUp out ->
  suffix = EmptyString \/ (exists rest, suffix = String "/" rest) ->
  SpecWords.beginsWithParentSegment p (out +:+ suffix) = true.
Proof.
  intros Hp [k ->] Hs. unfold SpecWords.beginsWithParentSegment. rewrite Hp.
  rewrite append_assoc. change (".." +:+ ?x) with (String "." (String "." x)).
  destruct (ups_head k) as [->|[rest ->]].
  - rewrite append_nil_l. destruct Hs as [->|[rest ->]]; reflexivity.
  - reflexivity.
Qed.

Lemma posix_relative_resolved (p : Process) (F T : string) :
  posix.resolve p [String "/" F] = String "/" F ->
  posix.resolve p [String "/" T] = String "/" T ->
  F <> T ->
  posix.relative p (String "/" F) (String "/" T) = relativeTail F T.
Proof.
  intros HF HT Hne. unfold posix.relative.
  assert (String.eqb (String "/" F) (String "/" T) = false) as Heq
    by (apply String.eqb_neq; congruence).
  rewrite Heq, HF, HT, Heq. unfold relativeTail, finishRelative.
  rewrite !js_length_cons.
  replace (1 + Js.length F - 1) with (Js.length F) by lia.
  replace (1 + Js.length T - 1) with (Js.length T) by lia.
  set (length := if Js.length F <? Js.length T then Js.length F else Js.length T).
  rewrite (commonLoop_common (String "/" F) (String "/" T) 1 1 F T "/" "/" 0 (-1) length).
  - reflexivity.
  - reflexivity.
  - reflexivity.
  - reflexivity.
  - reflexivity.
  - unfold length. destruct (Z.ltb_spec (Js.length F) (Js.length T)); lia.
  - f_equal. lia.
Qed.

Lemma finish_shape (p : Process) (from to : string) (l : Z) :
  isWin32 p = false ->
  -1 <= l -> l + 2 <= Js.length from ->
  (Js.sliceFrom to (1 + l) = EmptyString
   \/ exists rest, Js.sliceFrom to (1 + l) = String "/" rest) ->
  SpecWords.beginsWithParentSegment p (finishRelative from to l) = true.
Proof.
  intros Hp Hl1 Hl2 Hs. unfold finishRelative.
  apply isUp_begins; [exact Hp| |exact Hs].
  apply upLoop_shape; [left; reflexivity|lia|].
  rewrite Nat2Z.inj_succ, Z2Nat.id by (pose proof (js_length_nonneg from); lia). lia.
Qed.

Lemma lcsOk_suffix (T : string) (lcs bound : Z) :
  lcsOk T lcs bound ->
  -1 <= lcs /\ lcs < Z.max bound 0
  /\ (Js.sliceFrom (String "/" T) (1 + lcs) = EmptyString
      \/ exists rest, Js.sliceFrom (String "/" T) (1 + lcs) = String "/" rest).
Proof.
  intros [->|(C1 & rest & -> & -> & Hb)].
  - split; [lia|]. split; [lia|]. right. exists T.
    exact (sliceFrom_append EmptyString (String "/" T) 0 eq_refl).
  - pose proof (js_length_nonneg C1). split; [lia|]. split; [lia|].
    right. exists rest.
    change (String "/" (C1 +:+ String "/" rest))
      with ((String "/" C1) +:+ String "/" rest).
    apply sliceFrom_append. rewrite js_length_cons. reflexivity.
Qed.

Lemma length_zero (s : string) : Js.length s = 0 -> s = EmptyString.
Proof.
  destruct s; [reflexivity|]. rewrite js_length_cons.
  pose proof (js_length_nonneg s). lia.
Qed.

Lemma relativeTail_up (p : Process) (F T : string) :
  isWin32 p = false ->
  F <> T -> F <> EmptyString ->
  (forall X, T <> F +:+ String "/" X) ->
  SpecWords.beginsWithParentSegment p (relativeTail F T) = true.
Proof.
  intros Hp Hne HF Hnot.
  destruct (common_spec F T EmptyString (-1)) as (C & F2 & T2 & lcs' & Hc & HFC & HTC & Hstop & Hok);
    [left; reflexivity|].
  change (Js.length EmptyString) with 0 in Hc, Hok. rewrite Z.add_0_l in Hc, Hok.
  rewrite append_nil_l in Hok.
  destruct (lcsOk_suffix T lcs' (Js.length C) Hok) as (Hl1 & Hl2 & Hsuf).
  pose proof (js_length_nonneg C) as HC0.
  pose proof (js_length_nonneg F2) as HF0. pose proof (js_length_nonneg T2) as HT0.
  rewrite Z.max_l in Hl2 by lia.
  assert (Js.length F = Js.length C + Js.length F2) as HlF
    by (rewrite HFC; apply js_length_append).
  assert (Js.length T = Js.length C + Js.length T2) as HlT
    by (rewrite HTC; apply js_length_append).
  assert (SpecWords.beginsWithParentSegment p
            (finishRelative (String "/" F) (String "/" T) lcs') = true) as Hfin.
  { apply finish_shape; [exact Hp|exact Hl1| |exact Hsuf].
    rewrite js_length_cons. lia. }
  unfold relativeTail. rewrite Hc.
  set (length := if Js.length F <? Js.length T then Js.length F else Js.length T).
  assert (length = Js.length C + Z.min (Js.length F2) (Js.length T2)) as Hlen
    by (unfold length; destruct (Z.ltb_spec (Js.length F) (Js.length T)); lia).
  destruct (Z.eqb_spec (Js.length C) length) as [Hi|Hi]; [|exact Hfin].
  destruct (Z.ltb_spec length (Js.length T)) as [HtoLonger|HtoNot].
  - (* [from] is used up, [to] goes on *)
    assert (F2 = EmptyString) as -> by (apply length_zero; lia).
    rewrite append_nil_r in HFC. subst C.
    destruct T2 as [|b T3]; [change (Js.length EmptyString) with 0 in *; lia|].
    assert (Js.charCodeAt (String "/" T) (1 + Js.length F) = Some b) as Hget.
    { rewrite HTC. change (String "/" (F +:+ String b T3))
        with ((String "/" F) +:+ String b T3).
      apply charCodeAt_append_cons. rewrite js_length_cons. reflexivity. }
    unfold Js.charIs. rewrite Hget.
    destruct (Ascii.eqb_spec b CHAR_FORWARD_SLASH) as [->|Hb].
    + exfalso. apply (Hnot T3). exact HTC.
    + destruct (Z.eqb_spec (Js.length F) 0) as [H0|H0]; [|exact Hfin].
      exfalso. apply HF. apply length_zero. exact H0.
  - destruct (Z.ltb_spec length (Js.length F)) as [HfromLonger|HfromNot].
    + (* [to] is used up, [from] goes on *)
      assert (T2 = EmptyString) as -> by (apply length_zero; lia).
      rewrite append_nil_r in HTC. subst C.
      assert (Js.sliceFrom (String "/" T) (1 + Js.length T) = EmptyString) as Hend.
      { rewrite <- (append_nil_r (String "/" T)) at 1.
        apply sliceFrom_append. rewrite js_length_cons. reflexivity. }
      destruct (Js.charIs (String "/" F) (1 + Js.length T) CHAR_FORWARD_SLASH).
      * apply finish_shape; [exact Hp|lia| |left; exact Hend].
        rewrite js_length_cons. lia.
      * destruct (Z.eqb_spec (Js.length T) 0) as [H0|H0]; [|exact Hfin].
        apply finish_shape; [exact Hp|lia| |left].
        -- rewrite js_length_cons. lia.
        -- rewrite <- H0. exact Hend.
    + exfalso. apply Hne.
      assert (F2 = EmptyString) as -> by (apply length_zero; lia).
      assert (T2 = EmptyString) as -> by (apply length_zero; lia).
      rewrite append_nil_r in HFC, HTC. congruence.
Qed.

Lemma common_prefix (F : string) :
  forall (Y : string) (i lcs : Z),
    exists lcs', common F (F +:+ Y) i lcs = (i + Js.length F, lcs').
Proof.
  induction F as [|a F IH]; intros Y i lcs.
  - exists lcs. rewrite append_nil_l. change (Js.length EmptyString) with 0.
    rewrite Z.add_0_r. destruct Y; reflexivity.
  - rewrite append_cons. cbn [common]. rewrite Ascii.eqb_refl. cbn [negb].
    destruct (IH Y (i + 1) (if Ascii.eqb a CHAR_FORWARD_SLASH then i else lcs)) as [lcs' H].
    exists lcs'. rewrite H, js_length_cons. f_equal. lia.
Qed.

Lemma relativeTail_below (F X : string) :
  relativeTail F (F +:+ String "/" X) = X.
Proof.
  unfold relativeTail.
  destruct (common_prefix F (String "/" X) 0 (-1)) as [lcs' ->].
  rewrite Z.add_0_l, js_length_append, js_length_cons.
  pose proof (js_length_nonneg F). pose proof (js_length_nonneg X).
  assert ((Js.length F <? Js.length F + (1 + Js.length X)) = true) as Hlt
    by (apply Z.ltb_lt; lia).
  cbn zeta. rewrite Hlt, Z.eqb_refl, Hlt.
  assert (Js.charIs (String "/" (F +:+ String "/" X)) (1 + Js.length F) CHAR_FORWARD_SLASH
          = true) as ->.
  { unfold Js.charIs.
    change (String "/" (F +:+ String "/" X)) with ((String "/" F) +:+ String "/" X).
    rewrite charCodeAt_append_cons by (rewrite js_length_cons; reflexivity).
    reflexivity. }
  change (String "/" (F +:+ String "/" X)) with (String "/" F +:+ (String "/" EmptyString +:+ X)).
  rewrite <- append_assoc. apply sliceFrom_append.
  rewrite js_length_append, js_length_cons. change (Js.length "/") with 1. lia.
Qed.

Lemma relativeTail_root (c : ascii) (T : string) :
  c <> CHAR_FORWARD_SLASH ->
  relativeTail EmptyString (String c T) = String c T.
Proof.
  intros Hc. unfold relativeTail. cbn [common].
  change (Js.length EmptyString) with 0. rewrite js_length_cons.
  pose proof (js_length_nonneg T).
  assert ((0 <? 1 + Js.length T) = true) as Hlt by (apply Z.ltb_lt; lia).
  cbn zeta. rewrite Hlt. cbn [Z.eqb]. rewrite Hlt.
  assert (Js.charIs (String "/" (String c T)) (1 + 0) CHAR_FORWARD_SLASH = false) as ->.
  { unfold Js.charIs. cbn. apply Ascii.eqb_neq. exact Hc. }
  exact (sliceFrom_append "/" (String c T) (1 + 0) eq_refl).
Qed.

Lemma joinSegments_cons (t : string) (rest : list string) :
  rest <> [] -> joinSegments (t :: rest) = t +:+ String "/" (joinSegments rest).
Proof. destruct rest; [congruence|reflexivity]. Qed.

Lemma joinSegments_app (fs rest : list string) :
  fs <> [] -> rest <> [] ->
  joinSegments (fs ++ rest) = joinSegments fs +:+ String "/" (joinSegments rest).
Proof.
  intros Hfs Hrest. induction fs as [|f fs IH]; [congruence|].
  destruct fs as [|f' fs].
  - cbn [app]. apply joinSegments_cons. exact Hrest.
  - change ((f :: f' :: fs) ++ rest)%list with (f :: ((f' :: fs) ++ rest))%list.
    rewrite joinSegments_cons by discriminate.
    rewrite IH by discriminate.
    rewrite (joinSegments_cons f (f' :: fs)) by discriminate.
    rewrite append_assoc. reflexivity.
Qed.

Lemma split_at_slash (a : string) :
  forall b x y,
    noSlash a = true -> noSlash b = true ->
    a +:+ String "/" x = b +:+ String "/" y -> a = b /\ x = y.
Proof.
  induction a as [|c a IH]; intros b x y Ha Hb H.
  - destruct b as [|d b].
    + rewrite !append_nil_l in H. inversion H. auto.
    + rewrite append_nil_l, append_cons in H. inversion H; subst.
      destruct (noSlash_cons _ _ Hb) as [Hd _]. discriminate.
  - destruct (noSlash_cons _ _ Ha) as [Hc Ha'].
    destruct b as [|d b].
    + rewrite append_nil_l, append_cons in H. inversion H; subst. discriminate.
    + destruct (noSlash_cons _ _ Hb) as [_ Hb'].
      rewrite !append_cons in H. inversion H; subst.
      destruct (IH b x y Ha' Hb' H2) as [-> ->]. auto.
Qed.

Lemma slash_not_in (a b x : string) :
  noSlash b = true -> b <> a +:+ String "/" x.
Proof.
  revert b. induction a as [|c a IH]; intros b Hb H.
  - rewrite append_nil_l in H. subst b. discriminate.
  - rewrite append_cons in H. subst b.
    destruct (noSlash_cons _ _ Hb) as [_ Hb']. exact (IH _ Hb' eq_refl).
Qed.

Lemma plain_noSlash (t : string) : plainSegment t = true -> noSlash t = true.
Proof. intros H. apply plainSegment_facts in H. tauto. Qed.

Lemma prefix_from_string (fs : list string) :
  forall (ts : list string) (X : string),
    fs <> [] ->
    Forall (fun t => plainSegment t = true) fs ->
    Forall (fun t => plainSegment t = true) ts ->
    joinSegments ts = joinSegments fs +:+ String "/" X ->
    exists rest, ts = (fs ++ rest)%list /\ rest <> [] /\ X = joinSegments rest.
Proof.
  induction fs as [|f fs IH]; intros ts X Hne Hfs Hts H; [congruence|].
  apply Forall_cons in Hfs as [Hf Hfs].
  destruct ts as [|t ts].
  - exfalso. change (joinSegments []) with EmptyString in H.
    destruct (joinSegments (f :: fs)); rewrite ?append_nil_l, ?append_cons in H; discriminate.
  - apply Forall_cons in Hts as [Ht Hts].
    destruct ts as [|t' ts].
    + exfalso. change (joinSegments [t]) with t in H.
      destruct fs as [|f' fs].
      * change (joinSegments [f]) with f in H.
        exact (slash_not_in f t X (plain_noSlash t Ht) H).
      * rewrite joinSegments_cons, append_assoc in H by discriminate.
        exact (slash_not_in f t _ (plain_noSlash t Ht) H).
    + rewrite (joinSegments_cons t) in H by discriminate.
      destruct fs as [|f' fs].
      * change (joinSegments [f]) with f in H.
        destruct (split_at_slash t f _ _ (plain_noSlash t Ht) (plain_noSlash f Hf) H)
          as [-> HX].
        exists (t' :: ts). split; [reflexivity|]. split; [discriminate|auto].
      * rewrite (joinSegments_cons f) in H by discriminate.
        rewrite append_assoc in H. change (String "/" ?a +:+ ?b) with (String "/" (a +:+ b)) in H.
        destruct (split_at_slash t f _ _ (plain_noSlash t Ht) (plain_noSlash f Hf) H)
          as [-> HX].
        destruct (IH (t' :: ts) X) as (rest & E & Hrest & HXr); try assumption;
          [discriminate|].
        exists rest. rewrite E. auto.
Qed.

Lemma joinSegments_head (t : string) (rest : list string) :
  plainSegment t = true ->
  exists c s, joinSegments (t :: rest) = String c s /\ c <> CHAR_FORWARD_SLASH.
Proof.
  intros Ht. destruct (plainSegment_facts t Ht) as (Hne & Hns & _).
  destruct t as [|c t]; [congruence|].
  destruct (noSlash_cons _ _ Hns) as [Hc _].
  exists c. destruct rest as [|t' rest].
  - exists t. split; [reflexivity|]. intros ->. discriminate.
  - rewrite joinSegments_cons by discriminate. rewrite append_cons.
    eexists. split; [reflexivity|]. intros ->. discriminate.
Qed.

Lemma joinSegments_inj (fs : list string) :
  forall ts,
    Forall (fun t => plainSegment t = true) fs ->
    Forall (fun t => plainSegment t = true) ts ->
    joinSegments fs = joinSegments ts -> fs = ts.
Proof.
  induction fs as [|f fs IH]; intros ts Hfs Hts H.
  - destruct ts as [|t ts]; [reflexivity|].
    apply Forall_cons in Hts as [Ht _].
    destruct (joinSegments_head t ts Ht) as (c & s & E & _). rewrite E in H. discriminate.
  - apply Forall_cons in Hfs as [Hf Hfs].
    destruct ts as [|t ts].
    + destruct (joinSegments_head f fs Hf) as (c & s & E & _). rewrite E in H. discriminate.
    + apply Forall_cons in Hts as [Ht Hts].
      destruct fs as [|f' fs], ts as [|t' ts].
      * change (joinSegments [f]) with f in H. change (joinSegments [t]) with t in H.
        congruence.
      * exfalso. rewrite (joinSegments_cons t) in H by discriminate.
        change (joinSegments [f]) with f in H.
        exact (slash_not_in t f _ (plain_noSlash f Hf) H).
      * exfalso. rewrite (joinSegments_cons f) in H by discriminate.
        change (joinSegments [t]) with t in H.
        symmetry in H. exact (slash_not_in f t _ (plain_noSlash t Ht) H).
      * rewrite (joinSegments_cons f), (joinSegments_cons t) in H by discriminate.
        destruct (split_at_slash f t _ _ (plain_noSlash f Hf) (plain_noSlash t Ht) H)
          as [-> H'].
        f_equal. apply IH; assumption.
Qed.

Lemma dropPrefix_Some (fs : list string) :
  forall ts rest, dropPrefix fs ts = Some rest <-> ts = (fs ++ rest)%list.
Proof.
  induction fs as [|f fs IH]; intros ts rest; cbn [dropPrefix app].
  - split; congruence.
  - destruct ts as [|t ts]; [split; discriminate|].
    destruct (String.eqb_spec f t) as [->|Hne].
    + rewrite IH. split; congruence.
    + split; [discriminate|]. intros H. inversion H. congruence.
Qed.

Section PosixRegex.
Variable p : Process.
Hypothesis Hp : isWin32 p = false.

Lemma begins_in_segment (c : ascii) (s rest : string) :
  noSlash (String c s) = true ->
  SpecWords.beginsWithParentSegment p (String c s +:+ String "/" rest)
  = String.eqb (String c s) "..".
Proof.
  intros Hns. unfold SpecWords.beginsWithParentSegment. rewrite Hp.
  rewrite append_cons. cbn [String.eqb].
  destruct (Ascii.eqb_spec c ".") as [->|Hc].
  2:{ destruct c as [[] [] [] [] [] [] [] []]; first [reflexivity | exfalso; apply Hc; reflexivity]. }
  destruct (noSlash_cons _ _ Hns) as [_ Hns1].
  destruct s as [|d s]; [reflexivity|]. rewrite append_cons.
  destruct (Ascii.eqb_spec d ".") as [->|Hd].
  2:{ destruct d as [[] [] [] [] [] [] [] []]; first [reflexivity | exfalso; apply Hd; reflexivity]. }
  destruct (noSlash_cons _ _ Hns1) as [_ Hns2].
  destruct s as [|e s]; [reflexivity|]. rewrite append_cons.
  destruct (noSlash_cons _ _ Hns2) as [He _]. rewrite He. reflexivity.
Qed.

Lemma begins_last_segment (c : ascii) (s : string) :
  noSlash (String c s) = true ->
  SpecWords.beginsWithParentSegment p (String c s) = String.eqb (String c s) "..".
Proof.
  intros Hns. unfold SpecWords.beginsWithParentSegment. rewrite Hp. cbn [String.eqb].
  destruct (Ascii.eqb_spec c ".") as [->|Hc].
  2:{ destruct c as [[] [] [] [] [] [] [] []]; first [reflexivity | exfalso; apply Hc; reflexivity]. }
  destruct (noSlash_cons _ _ Hns) as [_ Hns1].
  destruct s as [|d s]; [reflexivity|].
  destruct (Ascii.eqb_spec d ".") as [->|Hd].
  2:{ destruct d as [[] [] [] [] [] [] [] []]; first [reflexivity | exfalso; apply Hd; reflexivity]. }
  destruct (noSlash_cons _ _ Hns1) as [_ Hns2].
  destruct s as [|e s]; [reflexivity|].
  destruct (noSlash_cons _ _ Hns2) as [He _]. rewrite He. reflexivity.
Qed.

Lemma test_segment_mid (s rest : string) :
  noSlash s = true ->
  Regex.test (PARENT_RELATIVE_REGEX p) (s +:+ String "/" rest)
  = endsWithTwoDots s || Regex.test (PARENT_RELATIVE_REGEX p) rest.
Proof.
  induction s as [|c s IH]; intros Hns.
  - rewrite append_nil_l, regex_test_step.
    unfold SpecWords.beginsWithParentSegment. reflexivity.
  - destruct (noSlash_cons _ _ Hns) as [_ Hns'].
    rewrite append_cons, regex_test_step, <- append_cons.
    rewrite (begins_in_segment c s rest Hns), (IH Hns').
    cbn [endsWithTwoDots]. rewrite orb_assoc. reflexivity.
Qed.

Lemma test_segment_last (s : string) :
  noSlash s = true ->
  Regex.test (PARENT_RELATIVE_REGEX p) s = endsWithTwoDots s.
Proof.
  induction s as [|c s IH]; intros Hns; [apply regex_test_empty|].
  destruct (noSlash_cons _ _ Hns) as [_ Hns'].
  rewrite regex_test_step, (begins_last_segment c s Hns), (IH Hns'). reflexivity.
Qed.

Lemma test_joinSegments (segs : list string) :
  Forall (fun t => plainSegment t = true) segs ->
  Regex.test (PARENT_RELATIVE_REGEX p) (joinSegments segs)
  = existsb endsWithTwoDots segs.
Proof.
  induction segs as [|t rest IH]; intros H; [apply regex_test_empty|].
  apply Forall_cons in H as [Ht Hrest].
  destruct rest as [|t' rest].
  - change (joinSegments [t]) with t. cbn [existsb]. rewrite orb_false_r.
    apply test_segment_last, plain_noSlash, Ht.
  - rewrite joinSegments_cons by discriminate.
    rewrite test_segment_mid by (apply plain_noSlash, Ht).
    rewrite (IH Hrest). reflexivity.
Qed.

Lemma isAbsolute_absolutePath (segs : list string) :
  isAbsolute p (absolutePath segs) = true.
Proof.
  unfold isAbsolute. rewrite Hp. unfold posix.isAbsolute, absolutePath.
  rewrite append_cons, append_nil_l, js_length_cons.
  pose proof (js_length_nonneg (joinSegments segs)).
  destruct (Z.ltb_spec 0 (1 + Js.length (joinSegments segs))); [reflexivity|lia].
Qed.

Lemma relative_plain (fs ts : list string) :
  Forall (fun t => plainSegment t = true) fs ->
  Forall (fun t => plainSegment t = true) ts ->
  fs <> ts ->
  relative p (absolutePath fs) (absolutePath ts)
  = relativeTail (joinSegments fs) (joinSegments ts).
Proof.
  intros Hfs Hts Hne. unfold relative. rewrite Hp.
  apply posix_relative_resolved.
  - exact (posix_resolve_plain p fs Hfs).
  - exact (posix_resolve_plain p ts Hts).
  - intros H. apply Hne. exact (joinSegments_inj fs ts Hfs Hts H).
Qed.

(** On a POSIX platform, for absolute paths written as [/] followed by
    ordinary segments joined by [/] (each segment not empty, without [/], and
    neither [.] nor [..]), [pathStartsWith child parent] is [true] exactly
    when the parent's segments are a prefix of the child's and none of the
    child's further segments ends in two dots; otherwise it is [false].  The
    working directory plays no part. *)
Theorem pathStartsWith_plain_posix (fs ts : list string) :
  Forall (fun t => plainSegment t = true) fs ->
  Forall (fun t => plainSegment t = true) ts ->
  pathStartsWith p (absolutePath ts) (absolutePath fs)
  = match dropPrefix fs ts with
    | Some rest => negb (existsb endsWithTwoDots rest)
    | None => false
    end.
Proof.
  intros Hfs Hts.
  destruct (dropPrefix fs ts) as [rest|] eqn:Ed.
  - apply dropPrefix_Some in Ed.
    rewrite pathStartsWith_same_kind
      by (rewrite !isAbsolute_absolutePath; reflexivity).
    f_equal.
    destruct rest as [|r rest].
    + rewrite app_nil_r in Ed. subst ts. rewrite relative_same. apply regex_test_empty.
    + assert (Forall (fun t => plainSegment t = true) (r :: rest)) as Hrest
        by (rewrite Ed in Hts; apply Forall_app in Hts; tauto).
      assert (fs <> ts) as Hne.
      { intros H. rewrite <- H in Ed. apply (f_equal List.length) in Ed.
        rewrite length_app in Ed. cbn in Ed. lia. }
      rewrite (relative_plain fs ts Hfs Hts Hne).
      rewrite <- (test_joinSegments (r :: rest) Hrest). f_equal.
      destruct fs as [|f fs].
      * cbn [app] in Ed. subst ts.
        apply Forall_cons in Hrest as [Hr _].
        destruct (joinSegments_head r rest Hr) as (c & s & -> & Hc).
        apply relativeTail_root. exact Hc.
      * rewrite Ed, joinSegments_app by discriminate. apply relativeTail_below.
  - apply pathStartsWith_parent_segment.
    assert (fs <> ts) as Hne.
    { intros ->. assert (dropPrefix ts ts = Some []) as H
        by (apply dropPrefix_Some; rewrite app_nil_r; reflexivity).
      congruence. }
    rewrite (relative_plain fs ts Hfs Hts Hne).
    apply relativeTail_up.
    + exact Hp.
    + intros H. apply Hne. exact (joinSegments_inj fs ts Hfs Hts H).
    + destruct fs as [|f fs]; [discriminate|].
      apply Forall_cons in Hfs as [Hf _].
      destruct (joinSegments_head f fs Hf) as (c & s & -> & _). discriminate.
    + intros X HX.
      destruct fs as [|f fs]; [discriminate|].
      destruct (prefix_from_string (f :: fs) ts X) as (rest & E & _); try assumption;
        [discriminate|].
      apply dropPrefix_Some in E. congruence.
Qed.

End PosixRegex.

Lemma pathStartsWith_plain_posix_witness :
  pathStartsWith Fixture.linux (absolutePath ["ws"; "src"; "b.."; "x.ts"])
    (absolutePath ["ws"; "src"]) = false.
Proof.
  apply (pathStartsWith_plain_posix Fixture.linux eq_refl
           ["ws"; "src"] ["ws"; "src"; "b.."; "x.ts"]);
    repeat constructor.
Defined.

(** ** The project's error listings, called again *)

Lemma muteProjectErrors_enabled (this : Plugin) (m : ProjectMethod)
    (original : ProjectFn) (w : World) :
  denoEnabled (store w) (projectName this) = true ->
  exists l,
    muteProjectErrors this m original w
    = (Normal (VRef l),
       {| store := store w; heap := <[l := HArray []]> (heap w);
          trace := trace w; immediates := immediates w |})
    /\ heap w !! l = None.
Proof.
  intros He. unfold muteProjectErrors. rewrite He.
  destruct (new_fresh (HArray []) w) as (l & Hnew & Hl).
  exists l. rewrite Hnew. split; [reflexivity|exact Hl].
Qed.

(** While Deno is enabled project-wide, two successive calls of a replaced
    error listing answer with two distinct new arrays, both empty, and the
    original listing is not called: the trace does not change. *)
Theorem muteProjectErrors_fresh_lists (this : Plugin) (m : ProjectMethod)
    (original : ProjectFn) (w : World) :
  denoEnabled (store w) (projectName this) = true ->
  exists l1 l2 w1 w2,
    muteProjectErrors this m original w = (Normal (VRef l1), w1)
    /\ muteProjectErrors this m original w1 = (Normal (VRef l2), w2)
    /\ l1 <> l2
    /\ heap w !! l1 = None /\ heap w !! l2 = None
    /\ heap w2 !! l1 = Some (HArray []) /\ heap w2 !! l2 = Some (HArray [])
    /\ trace w2 = trace w /\ store w2 = store w.
Proof.
  intros He.
  destruct (muteProjectErrors_enabled this m original w He) as (l1 & E1 & F1).
  set (w1 := {| store := store w; heap := <[l1 := HArray []]> (heap w);
                trace := trace w; immediates := immediates w |}) in *.
  destruct (muteProjectErrors_enabled this m original w1 He) as (l2 & E2 & F2).
  cbn [w1 store heap trace immediates] in E2, F2.
  assert (l1 <> l2) as Hne by (intros ->; rewrite lookup_insert_eq in F2; discriminate).
  exists l1, l2, w1. eexists. split; [exact E1|]. split; [exact E2|].
  cbn [store heap trace].
  split; [exact Hne|]. split; [exact F1|].
  split; [rewrite lookup_insert_ne in F2 by exact Hne; exact F2|].
  split; [rewrite lookup_insert_ne by congruence; apply lookup_insert_eq|].
  split; [apply lookup_insert_eq|]. split; reflexivity.
Qed.

Lemma muteProjectErrors_fresh_lists_witness :
  exists l1 l2 w1 w2,
    muteProjectErrors ExampleHost.this GetAllProjectErrors
      (getAllProjectErrors ExampleHost.project0) ExampleHost.worldOn
    = (Normal (VRef l1), w1)
    /\ muteProjectErrors ExampleHost.this GetAllProjectErrors
         (getAllProjectErrors ExampleHost.project0) w1
       = (Normal (VRef l2), w2)
    /\ l1 <> l2
    /\ heap ExampleHost.worldOn !! l1 = None /\ heap ExampleHost.worldOn !! l2 = None
    /\ heap w2 !! l1 = Some (HArray []) /\ heap w2 !! l2 = Some (HArray [])
    /\ trace w2 = trace ExampleHost.worldOn /\ store w2 = store ExampleHost.worldOn.
Proof.
  apply (muteProjectErrors_fresh_lists ExampleHost.this GetAllProjectErrors
           (getAllProjectErrors ExampleHost.project0) ExampleHost.worldOn).
  vm_compute; reflexivity.
Defined.
